(** * Client-side performance metrics collector: model and properties

    A shallow embedding of
    - [web/components/shared/performance/PerformanceMonitor.tsx]
      (the metric observers, the resource-timing filter, the effect
      cleanup and the score calculator),
    - [web/hooks/useOptimizedState.tsx]
      (the debounced value, the batched updates, the memo and the lazy
      loading hooks),
    - [web/components/shared/OptimizedImage.tsx]
      (the load and error handlers of the image), and
    - [web/components/shared/markdownEditor.tsx]
      (the height of the editor and the choice between the two editors).

    Conventions.
    - A JavaScript [number] that holds a measurement is a rational [Q]:
      every finite double is a rational and comparisons of doubles are
      exact, so a decimal literal of the source is the exact value of the
      double it denotes ([0.1] is [3602879701896397 / 2^55]).  The sum
      and the difference of two numbers are rounded to the nearest
      double, ties to even, as [+], [+=] and [-] do ([Binary64]).  NaN,
      the infinities and the sign of zero are left out.
    - An optional field ([x?: number]) is an [option]; [undefined] is
      [None].  The integer score is a [Z].
    - A JavaScript object used as a bag of named fields is a
      [gmap string V], and the spread [{...a, ...b}] is [b ∪ a]
      (the union of stdpp is left-biased, the spread right-biased).
    - React state is explicit: a hook is a record of its [useState] and
      [useRef] cells, and a callback is a function from record to record. *)

From Stdlib Require Import ZArith QArith Qround Qpower Qminmax List Lia Lqa Sorted Permutation.
From stdpp Require Import gmap strings.
Import ListNotations.

Local Open Scope Z_scope.

(** ** JavaScript numbers as rationals *)

Module Js.

(** [ToBoolean] on a number: every number but zero is truthy. *)
Definition truthy (v : Q) : bool := negb (Qeq_bool v 0).

(** [a > b] on numbers. *)
Definition gt (a b : Q) : bool := negb (Qle_bool a b).

(** The condition [x && x > t] of an [if], for an optional number [x]. *)
Definition and_gt (o : option Q) (t : Q) : bool :=
  match o with
  | Some v => truthy v && gt v t
  | None => false
  end.

(** The doubles denoted by the decimal literals [0.25], [0.1], [0.05]
    and [0.3]. *)
Definition lit_0_25 : Q := 1 # 4.
Definition lit_0_1 : Q := 3602879701896397 # 36028797018963968.
Definition lit_0_05 : Q := 3602879701896397 # 72057594037927936.
Definition lit_0_3 : Q := 5404319552844595 # 18014398509481984.

(** [Array.prototype.slice(start, end)]: a negative index counts from the
    end of the array, and both indices are clamped to its bounds. *)
Definition relativeIndex (len i : Z) : Z :=
  if (i <? 0)%Z then Z.max (len + i) 0 else Z.min i len.

Definition slice {A} (l : list A) (start final : Z) : list A :=
  let len := Z.of_nat (length l) in
  let k := relativeIndex len start in
  let final := relativeIndex len final in
  List.firstn (Z.to_nat (Z.max (final - k) 0)) (List.skipn (Z.to_nat k) l).

(** The values that occur in a dependency list: primitives, and objects
    and functions by their identity.  Numbers are integers here, so the
    two zeros and NaN of [Object.is] do not arise. *)
Inductive value :=
| Undefined
| Null
| Bool (b : bool)
| Num (n : Z)
| Str (s : string)
| Ref (address : positive).

(** [Object.is(a, b)]. *)
Definition Object_is (a b : value) : bool :=
  match a, b with
  | Undefined, Undefined => true
  | Null, Null => true
  | Bool x, Bool y => Bool.eqb x y
  | Num x, Num y => (x =? y)%Z
  | Str x, Str y => String.eqb x y
  | Ref x, Ref y => Pos.eqb x y
  | _, _ => false
  end.

(** [array[index]]: [undefined] out of range. *)
Definition at_index (array : list value) (index : nat) : value :=
  List.nth index array Undefined.

(** [array.every((x, index) => f(x, index))], from the index [i] on. *)
Fixpoint everyFrom {A} (f : A -> nat -> bool) (i : nat) (array : list A) : bool :=
  match array with
  | [] => true
  | x :: rest => f x i && everyFrom f (S i) rest
  end.

Definition every {A} (f : A -> nat -> bool) (array : list A) : bool :=
  everyFrom f 0 array.

End Js.

(** ** The arithmetic of doubles *)

(** The sum and the difference of two doubles are rounded to the nearest
    double, ties to the one with an even last digit.  A double is an
    integer of at most 53 bits times a power of two that is not below
    [2^-1074].  The range of doubles is not bounded above here: a result
    beyond the largest double, which JavaScript turns into [Infinity],
    is outside the model. *)
Module Binary64.
Section Rounding.
Local Open Scope Q_scope.

Definition emin : Z := -1074.

Definition pow2 (k : Z) : Q := 2 ^ k.

(** The integer part of the binary logarithm of a positive rational. *)
Definition flog2 (x : Q) : Z :=
  let k := (Z.log2 (Qnum x) - Z.log2 (Zpos (Qden x)))%Z in
  if Qle_bool (pow2 k) x then k else (k - 1)%Z.

(** The exponent of the last place of the doubles around a positive
    rational: 52 places below its leading bit, and [emin] for the
    subnormal ones. *)
Definition expo (x : Q) : Z := Z.max emin (flog2 x - 52).

(** Rounding to the nearest integer, ties to the even one. *)
Definition rne (q : Q) : Z :=
  let f := Qfloor q in
  match Qcompare (q - inject_Z f) (1 # 2) with
  | Lt => f
  | Gt => (f + 1)%Z
  | Eq => if Z.even f then f else (f + 1)%Z
  end.

Definition roundPositive (x : Q) : Q :=
  inject_Z (rne (x / pow2 (expo x))) * pow2 (expo x).

(** The double nearest to a rational, ties to even. *)
Definition round (x : Q) : Q :=
  match Qcompare x 0 with
  | Eq => 0
  | Gt => roundPositive x
  | Lt => - roundPositive (- x)
  end.

(** [a + b] and [a - b] on doubles. *)
Definition add (a b : Q) : Q := round (a + b).
Definition sub (a b : Q) : Q := round (a - b).

(** A rational that is a double. *)
Definition representable (a : Q) : Prop :=
  exists m e, (emin <= e)%Z /\ (Z.abs m <= 2 ^ 53)%Z /\ a == inject_Z m * pow2 e.

End Rounding.
End Binary64.

(** ** The metrics record *)

Record NavigationTiming := {
  navigationStart : Q;
  domContentLoadedEventEnd : Q;
  loadEventEnd : Q;
  responseStart : Q;
  requestStart : Q;
}.

Record ResourceTiming := {
  resourceName : string;
  transferSize : Z;
  duration : Q;
}.

Record PerformanceMetrics := {
  firstContentfulPaint : option Q;
  largestContentfulPaint : option Q;
  firstInputDelay : option Q;
  cumulativeLayoutShift : option Q;
  totalBlockingTime : option Q;
  timeToInteractive : option Q;
  navigationTiming : option NavigationTiming;
  resourceTiming : option (list ResourceTiming);
}.

(** [useState<PerformanceMetrics>({})]. *)
Definition emptyMetrics : PerformanceMetrics :=
  {| firstContentfulPaint := None; largestContentfulPaint := None;
     firstInputDelay := None; cumulativeLayoutShift := None;
     totalBlockingTime := None; timeToInteractive := None;
     navigationTiming := None; resourceTiming := None |}.

(** A [Partial<PerformanceMetrics>] has the same shape: a field that is
    [None] is absent from the object literal. *)
Definition PartialMetrics := PerformanceMetrics.

(** [{ ...prev, ...newMetrics }]: a field present in [newMetrics] wins. *)
Definition spread (prev : PerformanceMetrics) (newMetrics : PartialMetrics)
    : PerformanceMetrics :=
  let pick {A} (f : PerformanceMetrics -> option A) :=
    match f newMetrics with Some x => Some x | None => f prev end in
  {| firstContentfulPaint := pick firstContentfulPaint;
     largestContentfulPaint := pick largestContentfulPaint;
     firstInputDelay := pick firstInputDelay;
     cumulativeLayoutShift := pick cumulativeLayoutShift;
     totalBlockingTime := pick totalBlockingTime;
     timeToInteractive := pick timeToInteractive;
     navigationTiming := pick navigationTiming;
     resourceTiming := pick resourceTiming |}.

(** Field updates, used to vary one metric and hold the others fixed. *)
Definition with_fcp (o : option Q) (m : PerformanceMetrics) :=
  {| firstContentfulPaint := o;
     largestContentfulPaint := largestContentfulPaint m;
     firstInputDelay := firstInputDelay m;
     cumulativeLayoutShift := cumulativeLayoutShift m;
     totalBlockingTime := totalBlockingTime m;
     timeToInteractive := timeToInteractive m;
     navigationTiming := navigationTiming m;
     resourceTiming := resourceTiming m |}.

Definition with_lcp (o : option Q) (m : PerformanceMetrics) :=
  {| firstContentfulPaint := firstContentfulPaint m;
     largestContentfulPaint := o;
     firstInputDelay := firstInputDelay m;
     cumulativeLayoutShift := cumulativeLayoutShift m;
     totalBlockingTime := totalBlockingTime m;
     timeToInteractive := timeToInteractive m;
     navigationTiming := navigationTiming m;
     resourceTiming := resourceTiming m |}.

Definition with_fid (o : option Q) (m : PerformanceMetrics) :=
  {| firstContentfulPaint := firstContentfulPaint m;
     largestContentfulPaint := largestContentfulPaint m;
     firstInputDelay := o;
     cumulativeLayoutShift := cumulativeLayoutShift m;
     totalBlockingTime := totalBlockingTime m;
     timeToInteractive := timeToInteractive m;
     navigationTiming := navigationTiming m;
     resourceTiming := resourceTiming m |}.

Definition with_cls (o : option Q) (m : PerformanceMetrics) :=
  {| firstContentfulPaint := firstContentfulPaint m;
     largestContentfulPaint := largestContentfulPaint m;
     firstInputDelay := firstInputDelay m;
     cumulativeLayoutShift := o;
     totalBlockingTime := totalBlockingTime m;
     timeToInteractive := timeToInteractive m;
     navigationTiming := navigationTiming m;
     resourceTiming := resourceTiming m |}.

(** ** The score calculator *)

Module Score.

(** The body of [calculatePerformanceScore] up to its [return]: the local
    [score] is threaded through the four [if / else if] statements. *)
Definition scoreBeforeClamp (metrics : PerformanceMetrics) : Z :=
  let score := 100 in
  let score :=
    if Js.and_gt (firstContentfulPaint metrics) 1800 then score - 15
    else if Js.and_gt (firstContentfulPaint metrics) 1000 then score - 5
    else score in
  let score :=
    if Js.and_gt (largestContentfulPaint metrics) 4000 then score - 20
    else if Js.and_gt (largestContentfulPaint metrics) 2500 then score - 10
    else score in
  let score :=
    if Js.and_gt (firstInputDelay metrics) 300 then score - 15
    else if Js.and_gt (firstInputDelay metrics) 100 then score - 5
    else score in
  let score :=
    if Js.and_gt (cumulativeLayoutShift metrics) Js.lit_0_25 then score - 20
    else if Js.and_gt (cumulativeLayoutShift metrics) Js.lit_0_1 then score - 10
    else score in
  score.

(** [return Math.max(0, score)]. *)
Definition calculatePerformanceScore (metrics : PerformanceMetrics) : Z :=
  Z.max 0 (scoreBeforeClamp metrics).

(** The deduction table as the specification words it: one row per
    metric, the poor tier tested first, and only one tier applied. *)
Record row := {
  needsImprovementAbove : Q;
  needsImprovementPenalty : Z;
  poorAbove : Q;
  poorPenalty : Z;
}.

Definition fcpRow := {| needsImprovementAbove := 1000; needsImprovementPenalty := 5;
                        poorAbove := 1800; poorPenalty := 15 |}.
Definition lcpRow := {| needsImprovementAbove := 2500; needsImprovementPenalty := 10;
                        poorAbove := 4000; poorPenalty := 20 |}.
Definition fidRow := {| needsImprovementAbove := 100; needsImprovementPenalty := 5;
                        poorAbove := 300; poorPenalty := 15 |}.
Definition clsRow := {| needsImprovementAbove := Js.lit_0_1; needsImprovementPenalty := 10;
                        poorAbove := Js.lit_0_25; poorPenalty := 20 |}.

Definition tier (r : row) (v : Q) : Z :=
  if Js.gt v (poorAbove r) then poorPenalty r
  else if Js.gt v (needsImprovementAbove r) then needsImprovementPenalty r
  else 0.

(** An unset metric has no tier. *)
Definition deduction (r : row) (o : option Q) : Z :=
  match o with
  | Some v => tier r v
  | None => 0
  end.

Definition totalDeduction (m : PerformanceMetrics) : Z :=
  deduction fcpRow (firstContentfulPaint m)
  + deduction lcpRow (largestContentfulPaint m)
  + deduction fidRow (firstInputDelay m)
  + deduction clsRow (cumulativeLayoutShift m).

(** A row of the table is well formed when its thresholds are not
    negative and ordered, and so are its penalties. *)
Definition wellFormed (r : row) : Prop :=
  (0 <= needsImprovementAbove r)%Q
  /\ (needsImprovementAbove r <= poorAbove r)%Q
  /\ 0 <= needsImprovementPenalty r <= poorPenalty r.

(** The four scored metrics, to state a property once for all of them. *)
Inductive Metric := FCP | LCP | FID | CLS.

Definition rowOf (k : Metric) : row :=
  match k with
  | FCP => fcpRow
  | LCP => lcpRow
  | FID => fidRow
  | CLS => clsRow
  end.

Definition setMetric (k : Metric) (o : option Q) (m : PerformanceMetrics) : PerformanceMetrics :=
  match k with
  | FCP => with_fcp o m
  | LCP => with_lcp o m
  | FID => with_fid o m
  | CLS => with_cls o m
  end.

(** The snapshots of the two worked examples:
    [{FCP: 2000, LCP: 3000, FID: 50, CLS: 0.05}] and
    [{FCP: 5000, LCP: 5000, FID: 500, CLS: 0.3}]. *)
Definition exampleSnapshot : PerformanceMetrics :=
  with_fcp (Some 2000%Q) (with_lcp (Some 3000%Q)
    (with_fid (Some 50%Q) (with_cls (Some Js.lit_0_05) emptyMetrics))).

Definition worstSnapshot : PerformanceMetrics :=
  with_fcp (Some 5000%Q) (with_lcp (Some 5000%Q)
    (with_fid (Some 500%Q) (with_cls (Some Js.lit_0_3) emptyMetrics))).

Definition getMetric (k : Metric) (m : PerformanceMetrics) : option Q :=
  match k with
  | FCP => firstContentfulPaint m
  | LCP => largestContentfulPaint m
  | FID => firstInputDelay m
  | CLS => cumulativeLayoutShift m
  end.

End Score.

(** ** The metric observers *)

(** A [PerformanceEntry] as the paint and largest-contentful-paint
    observers read it. *)
Module PerformanceEntry.
Record t := {
  name : string;
  startTime : Q;
}.
End PerformanceEntry.

(** A first-input entry, read through [any]: either field may be absent. *)
Module FirstInputEntry.
Record t := {
  processingStart : option Q;
  startTime : option Q;
}.
End FirstInputEntry.

(** A layout-shift entry, read through [any]. *)
Module LayoutShiftEntry.
Record t := {
  hadRecentInput : bool;
  value : Q;
}.
End LayoutShiftEntry.

Module Monitor.

(** What one run of the effect owns: the React state [metrics], the local
    [clsValue] of [observeWebVitals], and, to state what was emitted, the
    arguments of the calls of [updateMetrics] and of [onMetricsUpdate],
    oldest first. *)
Record t := {
  metrics : PerformanceMetrics;
  clsValue : Q;
  updates : list PartialMetrics;
  notified : list PerformanceMetrics;
}.

(** The state at the start of the effect, over the metrics the component
    already holds. *)
Definition start (m : PerformanceMetrics) : t :=
  {| metrics := m; clsValue := 0; updates := []; notified := [] |}.

(** [updateMetrics]: the functional update of [setMetrics] merges the
    partial object into the previous state and hands the result to
    [onMetricsUpdate]. *)
Definition updateMetrics (newMetrics : PartialMetrics) (s : t) : t :=
  let updated := spread (metrics s) newMetrics in
  {| metrics := updated;
     clsValue := clsValue s;
     updates := updates s ++ [newMetrics];
     notified := notified s ++ [updated] |}.

(** The object literals handed to [updateMetrics]. *)
Definition fcpUpdate (v : Q) : PartialMetrics := with_fcp (Some v) emptyMetrics.
Definition lcpUpdate (v : Q) : PartialMetrics := with_lcp (Some v) emptyMetrics.
Definition fidUpdate (v : Q) : PartialMetrics := with_fid (Some v) emptyMetrics.
Definition clsUpdate (v : Q) : PartialMetrics := with_cls (Some v) emptyMetrics.

(** [entry.name === "first-contentful-paint"]. *)
Definition isFcp (entry : PerformanceEntry.t) : bool :=
  String.eqb (PerformanceEntry.name entry) "first-contentful-paint".

(** The callback of [fcpObserver] on one entry list: [find] returns the
    first match, and an entry object is always truthy. *)
Definition fcpObserver (entries : list PerformanceEntry.t) (s : t) : t :=
  match List.find isFcp entries with
  | Some fcp => updateMetrics (fcpUpdate (PerformanceEntry.startTime fcp)) s
  | None => s
  end.

(** The callback of [lcpObserver]: [entries[entries.length - 1]] is
    [undefined] on the empty list. *)
Definition lcpObserver (entries : list PerformanceEntry.t) (s : t) : t :=
  match List.last (List.map Some entries) None with
  | Some lastEntry => updateMetrics (lcpUpdate (PerformanceEntry.startTime lastEntry)) s
  | None => s
  end.

(** The body of the [forEach] of [fidObserver]; an absent field is
    [undefined], which is falsy. *)
Definition fidEntry (s : t) (entry : FirstInputEntry.t) : t :=
  match FirstInputEntry.processingStart entry, FirstInputEntry.startTime entry with
  | Some processingStart, Some startTime =>
      if Js.truthy processingStart && Js.truthy startTime then
        let fid := Binary64.sub processingStart startTime in
        updateMetrics (fidUpdate fid) s
      else s
  | _, _ => s
  end.

Definition fidObserver (entries : list FirstInputEntry.t) (s : t) : t :=
  List.fold_left fidEntry entries s.

(** The body of the [forEach] of [clsObserver]. *)
Definition clsEntry (s : t) (entry : LayoutShiftEntry.t) : t :=
  if negb (LayoutShiftEntry.hadRecentInput entry) then
    let clsValue' := Binary64.add (clsValue s) (LayoutShiftEntry.value entry) in
    updateMetrics (clsUpdate clsValue')
      {| metrics := metrics s; clsValue := clsValue';
         updates := updates s; notified := notified s |}
  else s.

Definition clsObserver (entries : list LayoutShiftEntry.t) (s : t) : t :=
  List.fold_left clsEntry entries s.

(** A session delivers entry lists to one observer, one after the other. *)
Definition deliver {E} (observer : list E -> t -> t) (batches : list (list E)) (s : t) : t :=
  List.fold_left (fun s entries => observer entries s) batches s.

(** *** The words of the specification about the observers *)

(** A shift entry counts when it had no recent input. *)
Definition counted (entry : LayoutShiftEntry.t) : bool :=
  negb (LayoutShiftEntry.hadRecentInput entry).

(** The sum of [value] over the entries that count, from [acc] on: the
    values are added one by one in the order of arrival, each addition
    being one of doubles. *)
Definition shiftSum (entries : list LayoutShiftEntry.t) (acc : Q) : Q :=
  List.fold_left Binary64.add
    (List.map LayoutShiftEntry.value (List.filter counted entries)) acc.

(** Both fields of a first-input entry are present. *)
Definition bothPresent (entry : FirstInputEntry.t) : bool :=
  match FirstInputEntry.processingStart entry, FirstInputEntry.startTime entry with
  | Some _, Some _ => true
  | _, _ => false
  end.

(** Both fields are present and neither is zero. *)
Definition bothNonZero (entry : FirstInputEntry.t) : bool :=
  match FirstInputEntry.processingStart entry, FirstInputEntry.startTime entry with
  | Some p, Some s => negb (Qeq_bool p 0) && negb (Qeq_bool s 0)
  | _, _ => false
  end.

(** [processingStart - startTime], a difference of doubles, where both
    are present. *)
Definition delay (entry : FirstInputEntry.t) : Q :=
  match FirstInputEntry.processingStart entry, FirstInputEntry.startTime entry with
  | Some p, Some s => Binary64.sub p s
  | _, _ => 0%Q
  end.

(** A paint entry tagged first-contentful-paint, and one that is not. *)
Definition fcpAt (startTime : Q) : PerformanceEntry.t :=
  {| PerformanceEntry.name := "first-contentful-paint";
     PerformanceEntry.startTime := startTime |}.

Definition firstPaintAt (startTime : Q) : PerformanceEntry.t :=
  {| PerformanceEntry.name := "first-paint";
     PerformanceEntry.startTime := startTime |}.

(** *** Resource timing *)

(** The comparator [(a, b) => b.transferSize - a.transferSize]. *)
Definition compareFn (a b : ResourceTiming) : Z := transferSize b - transferSize a.

(** [Array.prototype.sort] is a stable sort: an element goes in front of
    the first element that the comparator does not put before it. *)
Fixpoint insertSorted (x : ResourceTiming) (l : list ResourceTiming) : list ResourceTiming :=
  match l with
  | [] => [x]
  | y :: l' => if (compareFn x y <=? 0)%Z then x :: y :: l' else y :: insertSorted x l'
  end.

Definition sort (l : list ResourceTiming) : list ResourceTiming :=
  List.fold_right insertSorted [] l.

(** [.filter(entry => entry.transferSize > 100000).sort(...).slice(0, 10)]. *)
Definition largeResources (resourceEntries : list ResourceTiming) : list ResourceTiming :=
  List.firstn 10
    (sort (List.filter (fun entry => (100000 <? transferSize entry)%Z) resourceEntries)).

(** [collectResourceTiming]: [hasPerformance] is the test
    ["performance" in window && window.performance.getEntriesByType], and
    [resourceEntries] what [getEntriesByType("resource")] returns. *)
Definition collectResourceTiming (enableResourceTiming hasPerformance : bool)
    (resourceEntries : list ResourceTiming) (s : t) : t :=
  if negb enableResourceTiming then s
  else if hasPerformance then
    updateMetrics
      {| firstContentfulPaint := None; largestContentfulPaint := None;
         firstInputDelay := None; cumulativeLayoutShift := None;
         totalBlockingTime := None; timeToInteractive := None;
         navigationTiming := None;
         resourceTiming := Some (largeResources resourceEntries) |} s
  else s.

(** [b] does not come before [a] in descending order of transferred size. *)
Definition descending (a b : ResourceTiming) : Prop := (transferSize b <= transferSize a)%Z.

(** The test of the filter. *)
Definition isLarge (entry : ResourceTiming) : bool := (100000 <? transferSize entry)%Z.

(** Resources of the transferred sizes of the worked example. *)
Definition resourceOf (name : string) (size : Z) : ResourceTiming :=
  {| resourceName := name; transferSize := size; duration := 0 |}.

Definition exampleResources : list ResourceTiming :=
  [resourceOf "a.js" 50000; resourceOf "b.js" 150000;
   resourceOf "c.js" 300000; resourceOf "d.js" 120000].

(** *** Navigation timing *)

(** [collectNavigationTiming]: the first navigation entry, when there is
    one, becomes the [navigationTiming] field. *)
Definition collectNavigationTiming (hasPerformance : bool)
    (navigationEntries : list NavigationTiming) (s : t) : t :=
  if hasPerformance then
    match navigationEntries with
    | navigationTiming :: _ =>
        updateMetrics
          {| firstContentfulPaint := None; largestContentfulPaint := None;
             firstInputDelay := None; cumulativeLayoutShift := None;
             totalBlockingTime := None; timeToInteractive := None;
             navigationTiming := Some navigationTiming;
             resourceTiming := None |} s
    | [] => s
    end
  else s.

(** What a callback of the monitor may be handed. *)
Inductive delivery :=
| Paint (entries : list PerformanceEntry.t)
| LargestPaint (entries : list PerformanceEntry.t)
| FirstInput (entries : list FirstInputEntry.t)
| LayoutShift (entries : list LayoutShiftEntry.t)
| Navigation (hasPerformance : bool) (entries : list NavigationTiming)
| Resources (enableResourceTiming hasPerformance : bool) (entries : list ResourceTiming).

Definition handle (s : t) (d : delivery) : t :=
  match d with
  | Paint entries => fcpObserver entries s
  | LargestPaint entries => lcpObserver entries s
  | FirstInput entries => fidObserver entries s
  | LayoutShift entries => clsObserver entries s
  | Navigation hasPerformance entries => collectNavigationTiming hasPerformance entries s
  | Resources enable hasPerformance entries =>
      collectResourceTiming enable hasPerformance entries s
  end.

(** The deliveries of a session, in the order the host makes them. *)
Definition session (ds : list delivery) (s : t) : t := List.fold_left handle ds s.

(** The callback a delivery goes to. *)
Inductive source :=
| FromPaint | FromLargestPaint | FromFirstInput | FromLayoutShift
| FromNavigation | FromResources.

Definition sourceOf (d : delivery) : source :=
  match d with
  | Paint _ => FromPaint
  | LargestPaint _ => FromLargestPaint
  | FirstInput _ => FromFirstInput
  | LayoutShift _ => FromLayoutShift
  | Navigation _ _ => FromNavigation
  | Resources _ _ _ => FromResources
  end.

(** No delivery of the list goes to the callback [k]. *)
Definition without (k : source) (ds : list delivery) : Prop :=
  Forall (fun d => sourceOf d <> k) ds.

(** The totals after each addition: [acc + v1], [acc + v1 + v2], ...,
    every addition being one of doubles. *)
Fixpoint runningTotals (acc : Q) (vs : list Q) : list Q :=
  match vs with
  | [] => []
  | v :: rest => Binary64.add acc v :: runningTotals (Binary64.add acc v) rest
  end.

(** The last element of a list, if any. *)
Definition lastOf {A} (l : list A) : option A := List.last (List.map Some l) None.

(** The field the callback [k] writes is absent from a partial update. *)
Definition absent (k : source) (p : PartialMetrics) : Prop :=
  match k with
  | FromPaint => firstContentfulPaint p = None
  | FromLargestPaint => largestContentfulPaint p = None
  | FromFirstInput => firstInputDelay p = None
  | FromLayoutShift => cumulativeLayoutShift p = None
  | FromNavigation => navigationTiming p = None
  | FromResources => resourceTiming p = None
  end.

(** The field the callback [k] writes is the same in two snapshots. *)
Definition sameField (k : source) (m m' : PerformanceMetrics) : Prop :=
  match k with
  | FromPaint => firstContentfulPaint m' = firstContentfulPaint m
  | FromLargestPaint => largestContentfulPaint m' = largestContentfulPaint m
  | FromFirstInput => firstInputDelay m' = firstInputDelay m
  | FromLayoutShift => cumulativeLayoutShift m' = cumulativeLayoutShift m
  | FromNavigation => navigationTiming m' = navigationTiming m
  | FromResources => resourceTiming m' = resourceTiming m
  end.

(** A partial update that only has the field of the callback [k0]. *)
Definition only (k0 : source) (p : PartialMetrics) : Prop :=
  totalBlockingTime p = None /\ timeToInteractive p = None
  /\ forall k, k <> k0 -> absent k p.

End Monitor.

(** ** The effect of the monitor: set-up and cleanup *)

Module Lifecycle.

(** The four [PerformanceObserver] objects that [observeWebVitals] creates. *)
Inductive Observer := Fcp | Lcp | Fid | Cls.

Definition Observer_eqb (a b : Observer) : bool :=
  match a, b with
  | Fcp, Fcp | Lcp, Lcp | Fid, Fid | Cls, Cls => true
  | _, _ => false
  end.

(** What the host holds for one mounted component: the observers that are
    observing, [observerRef.current], whether the ["load"] listener is
    registered, the [setTimeout(..., 1000)] callbacks that are pending, and
    how often the two [collect...] functions have run. *)
Record Host := {
  observing : list Observer;
  observerRef : option Observer;
  loadListener : bool;
  pendingTimeouts : nat;
  collected : nat;
}.

Definition initial : Host :=
  {| observing := []; observerRef := None; loadListener := false;
     pendingTimeouts := 0; collected := 0 |}.

(** [o.observe(...)]. *)
Definition observe (o : Observer) (h : Host) : Host :=
  {| observing := observing h ++ [o]; observerRef := observerRef h;
     loadListener := loadListener h; pendingTimeouts := pendingTimeouts h;
     collected := collected h |}.

(** [o.disconnect()]. *)
Definition disconnect (o : Observer) (h : Host) : Host :=
  {| observing := List.filter (fun o' => negb (Observer_eqb o' o)) (observing h);
     observerRef := observerRef h;
     loadListener := loadListener h; pendingTimeouts := pendingTimeouts h;
     collected := collected h |}.

(** The statements of the [try] block, in order; [accepts o] is false when
    [o.observe] throws.  A throw leaves the earlier subscriptions in place
    and skips the rest of the block, the assignment to [observerRef]
    included. *)
Fixpoint observeEach (accepts : Observer -> bool) (os : list Observer) (h : Host)
    : Host * bool :=
  match os with
  | [] => (h, true)
  | o :: os' => if accepts o then observeEach accepts os' (observe o h) else (h, false)
  end.

Definition observeWebVitals (hasPerformanceObserver : bool)
    (accepts : Observer -> bool) (h : Host) : Host :=
  if hasPerformanceObserver then
    let (h', ok) := observeEach accepts [Fcp; Lcp; Fid; Cls] h in
    if ok then
      {| observing := observing h'; observerRef := Some Fcp;
         loadListener := loadListener h'; pendingTimeouts := pendingTimeouts h';
         collected := collected h' |}
    else h'
  else h.

(** [collectNavigationTiming(); collectResourceTiming();]. *)
Definition collect (h : Host) : Host :=
  {| observing := observing h; observerRef := observerRef h;
     loadListener := loadListener h; pendingTimeouts := pendingTimeouts h;
     collected := S (collected h) |}.

(** The body of the effect in a browser (where [window] is defined);
    [readyStateComplete] is [document.readyState === "complete"]. *)
Definition mount (hasPerformanceObserver : bool) (accepts : Observer -> bool)
    (readyStateComplete : bool) (h : Host) : Host :=
  let h := observeWebVitals hasPerformanceObserver accepts h in
  if readyStateComplete then collect h
  else
    {| observing := observing h; observerRef := observerRef h;
       loadListener := true; pendingTimeouts := pendingTimeouts h;
       collected := collected h |}.

(** The window fires ["load"]: the listener schedules the timeout. *)
Definition load (h : Host) : Host :=
  if loadListener h then
    {| observing := observing h; observerRef := observerRef h;
       loadListener := loadListener h; pendingTimeouts := S (pendingTimeouts h);
       collected := collected h |}
  else h.

(** A pending timeout elapses. *)
Definition timeout (h : Host) : Host :=
  match pendingTimeouts h with
  | O => h
  | S n =>
      collect
        {| observing := observing h; observerRef := observerRef h;
           loadListener := loadListener h; pendingTimeouts := n;
           collected := collected h |}
  end.

(** The function the effect returns. *)
Definition cleanup (h : Host) : Host :=
  match observerRef h with
  | Some current => disconnect current h
  | None => h
  end.

(** The host still calls the callback of [o]. *)
Definition fires (o : Observer) (h : Host) : bool :=
  List.existsb (Observer_eqb o) (observing h).

(** The dependencies of the effect change: React runs the cleanup of the
    last run, then the effect again. *)
Definition rerun (hasPerformanceObserver : bool) (accepts : Observer -> bool)
    (readyStateComplete : bool) (h : Host) : Host :=
  mount hasPerformanceObserver accepts readyStateComplete (cleanup h).

(** [n] changes of the dependencies, one after the other. *)
Fixpoint reruns (n : nat) (hasPerformanceObserver : bool) (accepts : Observer -> bool)
    (readyStateComplete : bool) (h : Host) : Host :=
  match n with
  | O => h
  | S n' =>
      rerun hasPerformanceObserver accepts readyStateComplete
        (reruns n' hasPerformanceObserver accepts readyStateComplete h)
  end.

(** How many observers of the kind [o] are observing. *)
Definition observers (o : Observer) (h : Host) : nat :=
  length (List.filter (Observer_eqb o) (observing h)).

End Lifecycle.

(** ** [useOptimizedState]: the debounced value *)

Module Debounce.
Section Hook.
Context {T : Type}.

(** The argument [value: T | ((prev: T) => T)]. *)
Inductive SetStateAction :=
| Value (v : T)
| Updater (f : T -> T).

(** [setState(value)] of React: a function is applied to the latest
    state, the updates queued before it included. *)
Definition applyAction (value : SetStateAction) (prev : T) : T :=
  match value with
  | Value v => v
  | Updater f => f prev
  end.

(** A pending [setTimeout]: when it fires, the argument [value] of the
    call that set it, and the [state] its callback closed over. *)
Record Timeout := {
  fireAt : nat;
  value : SetStateAction;
  closedOver : T;
}.

(** The cells of the hook.  [state] is the immediate value (the queue of
    [setState] applied), [rendered] the [state] of the last render, which
    is what [setOptimizedState] closes over through [useCallback], and
    [timeoutRef] the timer that is pending. *)
Record t := {
  state : T;
  debouncedState : T;
  rendered : T;
  timeoutRef : option Timeout;
}.

Definition useOptimizedState (initialState : T) : t :=
  {| state := initialState; debouncedState := initialState;
     rendered := initialState; timeoutRef := None |}.

(** [setOptimizedState(value)] called at time [now]: [clearTimeout] drops
    the pending timer and [setTimeout] installs the new one. *)
Definition setOptimizedState (debounceMs now : nat) (value : SetStateAction) (h : t) : t :=
  {| state := applyAction value (state h);
     debouncedState := debouncedState h;
     rendered := rendered h;
     timeoutRef := Some {| fireAt := now + debounceMs; value := value;
                           closedOver := rendered h |} |}.

(** The callback of the timer:
    [typeof value === "function" ? value(state) : value]. *)
Definition timerValue (tm : Timeout) : T :=
  match value tm with
  | Updater f => f (closedOver tm)
  | Value v => v
  end.

(** React renders again: the callback is rebuilt over the current state. *)
Definition render (h : t) : t :=
  {| state := state h; debouncedState := debouncedState h;
     rendered := state h; timeoutRef := timeoutRef h |}.

(** Time reaches [now]: a timer that is due fires, sets the debounced
    state, and the component renders. *)
Definition elapse (now : nat) (h : t) : t :=
  match timeoutRef h with
  | Some tm =>
      if (fireAt tm <=? now)%nat then
        render {| state := state h; debouncedState := timerValue tm;
                  rendered := rendered h; timeoutRef := None |}
      else h
  | None => h
  end.

(** An event handler that runs at time [now] and calls the callback of
    the last render once per element of [calls]; React renders when the
    handler has returned. *)
Definition handler (debounceMs now : nat) (calls : list SetStateAction) (h : t) : t :=
  render (List.fold_left (fun h value => setOptimizedState debounceMs now value h)
                         calls (elapse now h)).

(** The cleanup of the hook's effect. *)
Definition unmount (h : t) : t :=
  {| state := state h; debouncedState := debouncedState h;
     rendered := rendered h; timeoutRef := None |}.

(** Handlers that each pass one plain value, at the given times. *)
Definition typing (debounceMs : nat) (keys : list (nat * T)) (h : t) : t :=
  List.fold_left (fun h key => handler debounceMs (fst key) [Value (snd key)] h) keys h.

(** Each time of the list is less than [debounceMs] after the one before
    it, [last] being the time before the first. *)
Fixpoint rapid (debounceMs last : nat) (keys : list (nat * T)) : Prop :=
  match keys with
  | [] => True
  | key :: rest =>
      (last <= fst key)%nat /\ (fst key < last + debounceMs)%nat
      /\ rapid debounceMs (fst key) rest
  end.

(** The hook right after an update with the plain value [v] at time
    [now]: the immediate value is [v], the delayed value is [d], and the
    timer is due at [now + debounceMs]. *)
Definition waiting (debounceMs now : nat) (v d : T) (h : t) : Prop :=
  state h = v /\ debouncedState h = d
  /\ exists c, timeoutRef h = Some {| fireAt := now + debounceMs; value := Value v;
                                      closedOver := c |}.

End Hook.
Arguments SetStateAction : clear implicits.
Arguments Timeout : clear implicits.
Arguments t : clear implicits.
End Debounce.

(** ** [useBatchedState]: the batched updates *)

Module Batch.
Section Hook.
Context {V : Type}.

(** The cells of the hook, the updates React holds, and the timers of
    the host.  A timer handle is a positive integer, hence truthy.
    [state] is the state React has committed.  [queue] holds the updates
    that were dispatched and not yet rendered: [Some s] is an update whose
    result [s] React computed when it was dispatched, [None] one whose
    updater is still to run.  [timers] holds the handles that were set
    and neither cleared nor run; [flushes] counts the timer callbacks
    that have run. *)
Record t := {
  state : gmap string V;
  queue : list (option (gmap string V));
  pendingUpdatesRef : gmap string V;
  batchTimeoutRef : option positive;
  timers : list positive;
  nextHandle : positive;
  flushes : nat;
}.

Definition useBatchedState (initialState : gmap string V) : t :=
  {| state := initialState; queue := []; pendingUpdatesRef := ∅;
     batchTimeoutRef := None; timers := []; nextHandle := 1%positive;
     flushes := 0 |}.

Definition clearTimeout (handle : positive) (ts : list positive) : list positive :=
  List.filter (fun h => negb (Pos.eqb h handle)) ts.

(** [batchedSetState(updates)]. *)
Definition batchedSetState (updates : gmap string V) (h : t) : t :=
  let cleared :=
    match batchTimeoutRef h with
    | Some handle => clearTimeout handle (timers h)
    | None => timers h
    end in
  {| state := state h;
     queue := queue h;
     pendingUpdatesRef := updates ∪ pendingUpdatesRef h;
     batchTimeoutRef := Some (nextHandle h);
     timers := cleared ++ [nextHandle h];
     nextHandle := Pos.succ (nextHandle h);
     flushes := flushes h |}.

(** The updater [prevState => ({...prevState, ...pendingUpdatesRef.current})]:
    it reads the ref when it is run, so its result depends on what the
    ref holds then. *)
Definition updater (pendingWhenRun prevState : gmap string V) : gmap string V :=
  pendingWhenRun ∪ prevState.

(** [setState(updater)] as React takes it.  When [eager] is set and no
    other update is queued, React runs the updater at once on the
    committed state and keeps the result with the update; otherwise it
    queues the updater and runs it when it renders.  Which of the two
    React does depends on the work the component has pending, not on the
    hook. *)
Definition setState (eager : bool) (h : t) : option (gmap string V) :=
  match queue h with
  | [] => if eager then Some (updater (pendingUpdatesRef h) (state h)) else None
  | _ :: _ => None
  end.

(** The callback of the timer: it hands the updater to [setState], then
    empties the accumulator. *)
Definition flush (eager : bool) (h : t) : t :=
  {| state := state h;
     queue := queue h ++ [setState eager h];
     pendingUpdatesRef := ∅;
     batchTimeoutRef := batchTimeoutRef h;
     timers := timers h;
     nextHandle := nextHandle h;
     flushes := S (flushes h) |}.

(** Every timer that is set runs. *)
Definition fire (eager : bool) (h : t) : t :=
  let h' := List.fold_left (fun h _ => flush eager h) (timers h) h in
  {| state := state h'; queue := queue h';
     pendingUpdatesRef := pendingUpdatesRef h';
     batchTimeoutRef := batchTimeoutRef h'; timers := [];
     nextHandle := nextHandle h'; flushes := flushes h' |}.

(** React renders: an update with a result computed at dispatch gives
    that result, and a queued updater runs now, on what the ref holds
    now. *)
Definition render (h : t) : t :=
  {| state :=
       List.fold_left
         (fun prevState update =>
            match update with
            | Some eagerState => eagerState
            | None => updater (pendingUpdatesRef h) prevState
            end)
         (queue h) (state h);
     queue := [];
     pendingUpdatesRef := pendingUpdatesRef h;
     batchTimeoutRef := batchTimeoutRef h; timers := timers h;
     nextHandle := nextHandle h; flushes := flushes h |}.

(** Control returns to the scheduler: the timers run, then React
    renders. *)
Definition tick (eager : bool) (h : t) : t := render (fire eager h).

(** The cleanup of the hook's effect. *)
Definition unmount (h : t) : t :=
  {| state := state h; queue := queue h;
     pendingUpdatesRef := pendingUpdatesRef h;
     batchTimeoutRef := batchTimeoutRef h;
     timers := match batchTimeoutRef h with
               | Some handle => clearTimeout handle (timers h)
               | None => timers h
               end;
     nextHandle := nextHandle h; flushes := flushes h |}.

(** Either no timer is set, or the one that is set is the one the ref
    holds. *)
Definition oneTimer (h : t) : Prop :=
  timers h = [] \/ exists handle, batchTimeoutRef h = Some handle /\ timers h = [handle].

(** The calls made before control returns to the scheduler. *)
Definition submit (calls : list (gmap string V)) (h : t) : t :=
  List.fold_left (fun h updates => batchedSetState updates h) calls h.

(** The accumulator after the calls: a later call wins on a shared field. *)
Definition accumulate (calls : list (gmap string V)) (pending : gmap string V)
    : gmap string V :=
  List.fold_left (fun acc updates => updates ∪ acc) calls pending.

(** The value the last of the calls that has the field [k] gives it. *)
Fixpoint lastWrite (k : string) (calls : list (gmap string V)) : option V :=
  match calls with
  | [] => None
  | updates :: rest =>
      match lastWrite k rest with
      | Some v => Some v
      | None => updates !! k
      end
  end.

End Hook.
Arguments t : clear implicits.
End Batch.

(** ** [useOptimizedMemo] and [depsEqual] *)

Module Memo.

(** [depsEqual(deps1, deps2)]. *)
Definition depsEqual (deps1 deps2 : list Js.value) : bool :=
  if negb (length deps1 =? length deps2)%nat then false
  else Js.every (fun dep index => Js.Object_is dep (Js.at_index deps2 index)) deps1.

Section Hook.
Context {T : Type}.

(** [memoRef.current], with the number of calls of [factory] so far. *)
Record cached := {
  value : T;
  deps : list Js.value;
}.

Record t := {
  memoRef : option cached;
  factoryCalls : nat;
}.

Definition initial : t := {| memoRef := None; factoryCalls := 0 |}.

(** One render: [useOptimizedMemo(factory, deps, isExpensive)] returns
    [memoRef.current.value]; [[...deps]] is a copy of the list. *)
Definition useOptimizedMemo (factory : unit -> T) (deps : list Js.value)
    (isExpensive : bool) (h : t) : T * t :=
  match memoRef h with
  | Some {| value := cachedValue; deps := cachedDeps |} =>
      if negb (depsEqual cachedDeps deps) then
        let fresh := factory tt in
        (fresh, {| memoRef := Some {| value := fresh; deps := deps |};
                   factoryCalls := S (factoryCalls h) |})
      else (cachedValue, h)
  | None =>
      let fresh := factory tt in
      (fresh, {| memoRef := Some {| value := fresh; deps := deps |};
                 factoryCalls := S (factoryCalls h) |})
  end.

End Hook.
Arguments cached : clear implicits.
Arguments t : clear implicits.
End Memo.

(** ** [useLazyLoad] *)

Module LazyLoad.

Record IntersectionObserverEntry := {
  isIntersecting : bool;
}.

Record t := {
  isVisible : bool;
  hasLoaded : bool;
}.

Definition useLazyLoad : t := {| isVisible := false; hasLoaded := false |}.

(** The callback of the observer, [([entry]) => ...]: on an empty list
    [entry] is [undefined] and reading [entry.isIntersecting] throws, which
    is [None] here.  The effect runs again whenever [hasLoaded] changes, so
    the callback closes over the current [hasLoaded]. *)
Definition callback (entries : list IntersectionObserverEntry) (h : t) : option t :=
  match entries with
  | [] => None
  | entry :: _ =>
      if isIntersecting entry && negb (hasLoaded h)
      then Some {| isVisible := true; hasLoaded := true |}
      else Some h
  end.

(** The entry lists the host delivers, one after the other. *)
Fixpoint deliver (batches : list (list IntersectionObserverEntry)) (h : t) : option t :=
  match batches with
  | [] => Some h
  | entries :: rest =>
      match callback entries h with
      | Some h' => deliver rest h'
      | None => None
      end
  end.

(** The first entry of a list intersects. *)
Definition intersects (entries : list IntersectionObserverEntry) : bool :=
  match entries with
  | entry :: _ => isIntersecting entry
  | [] => false
  end.

Definition nonEmpty (entries : list IntersectionObserverEntry) : bool :=
  match entries with
  | [] => false
  | _ :: _ => true
  end.

End LazyLoad.

(** ** [OptimizedImage]: loading, error and fallback *)

Module Image.

(** The props the handlers and the render read. *)
Record props := {
  src : string;
  fallbackSrc : option string;
  showLoadingSpinner : bool;
  enableLazyLoad : bool;
}.

(** The [useState] cells, with the number of calls of [onLoadComplete]
    and of [onError]. *)
Record t := {
  isLoading : bool;
  hasError : bool;
  currentSrc : string;
  loadCompleteCalls : nat;
  errorCalls : nat;
}.

(** A string is truthy unless it is empty; [undefined] is falsy. *)
Definition truthy (s : option string) : bool :=
  match s with
  | Some s => negb (String.eqb s "")
  | None => false
  end.

Definition mount (p : props) : t :=
  {| isLoading := true; hasError := false; currentSrc := src p;
     loadCompleteCalls := 0; errorCalls := 0 |}.

(** The effect on [[src]]. *)
Definition reset (p : props) (h : t) : t :=
  {| isLoading := true; hasError := false; currentSrc := src p;
     loadCompleteCalls := loadCompleteCalls h; errorCalls := errorCalls h |}.

Definition handleLoad (h : t) : t :=
  {| isLoading := false; hasError := hasError h; currentSrc := currentSrc h;
     loadCompleteCalls := S (loadCompleteCalls h); errorCalls := errorCalls h |}.

(** [handleError]: the later [setState] of a cell wins over the earlier
    one of the same handler; [undefined] and the empty string are falsy. *)
Definition handleError (p : props) (h : t) : t :=
  let failed :=
    {| isLoading := false; hasError := true; currentSrc := currentSrc h;
       loadCompleteCalls := loadCompleteCalls h; errorCalls := S (errorCalls h) |} in
  match fallbackSrc p with
  | Some fallback =>
      if negb (String.eqb fallback "") && negb (String.eqb (currentSrc h) fallback)
      then
        {| isLoading := true; hasError := false; currentSrc := fallback;
           loadCompleteCalls := loadCompleteCalls h; errorCalls := errorCalls h |}
      else failed
  | None => failed
  end.

(** What the image element reports for the current source. *)
Inductive event := Load | Error.

Definition step (p : props) (h : t) (e : event) : t :=
  match e with
  | Load => handleLoad h
  | Error => handleError p h
  end.

Definition run (p : props) (events : list event) (h : t) : t :=
  List.fold_left (step p) events h.

(** The conditions of the render. *)
Definition shouldRenderImage (p : props) (visible : bool) : bool :=
  negb (enableLazyLoad p) || visible.

Definition spinnerShown (p : props) (h : t) : bool :=
  isLoading h && showLoadingSpinner p.

Definition errorShown (p : props) (h : t) : bool :=
  hasError h && negb (truthy (fallbackSrc p)).

(** The fallback can be switched to: it is set, not empty, and not the
    source itself. *)
Definition usable (p : props) : bool :=
  match fallbackSrc p with
  | Some f => negb (String.eqb f "") && negb (String.eqb (src p) f)
  | None => false
  end.

Definition errors (events : list event) : nat :=
  length (List.filter (fun e => match e with Error => true | Load => false end) events).

Definition loads (events : list event) : nat :=
  length (List.filter (fun e => match e with Load => true | Error => false end) events).

End Image.

(** ** The markdown editor: height and choice of the editor *)

Module Editor.

Definition MAX_EDITOR_HEIGHT : Q := 1000000.
Definition minHeight : Q := 100.

(** The height [updateHeight] sets for a content height. *)
Definition updateHeight (contentHeight : Q) : Q :=
  Qmin MAX_EDITOR_HEIGHT (Qmax minHeight contentHeight).

Definition LARGE_TEXT_THRESHOLD : Z := 100.
Definition LARGE_TEXT_THRESHOLD_CHARS : Z := 20000.

Definition newline : Ascii.ascii := Ascii.ascii_of_nat 10.

(** [text.split("\n")]; a text is the sequence of its code units. *)
Fixpoint split (text : string) : list string :=
  match text with
  | EmptyString => [EmptyString]
  | String c rest =>
      if Ascii.eqb c newline then EmptyString :: split rest
      else
        match split rest with
        | first :: others => String c first :: others
        | [] => [String c EmptyString]
        end
  end.

(** Which editor [MarkdownEditor] renders. *)
Inductive editor :=
| Simple
| Monaco (showLargeTextWarning : bool).

Definition MarkdownEditor (text : string) (monaco : bool) : editor :=
  if (LARGE_TEXT_THRESHOLD <? Z.of_nat (length (split text)))%Z
     || monaco
     || (LARGE_TEXT_THRESHOLD_CHARS <? Z.of_nat (String.length text))%Z
  then Monaco (negb monaco)
  else Simple.

(** The number of line feeds of a text. *)
Fixpoint lineFeeds (text : string) : nat :=
  match text with
  | EmptyString => 0
  | String c rest => (if Ascii.eqb c newline then 1 else 0) + lineFeeds rest
  end.

End Editor.

(** * Properties *)

(** ** Numbers *)

Lemma gt_spec (a b : Q) : Js.gt a b = true <-> (b < a)%Q.
Proof.
  unfold Js.gt. rewrite negb_true_iff. split.
  - intros H. apply Qnot_le_lt. intros Hle.
    apply Qle_bool_iff in Hle. congruence.
  - intros H. destruct (Qle_bool a b) eqn:E; [|reflexivity].
    apply Qle_bool_iff in E. exfalso. exact (Qlt_not_le _ _ H E).
Qed.

Lemma gt_false (a b : Q) : Js.gt a b = false <-> (a <= b)%Q.
Proof. unfold Js.gt. rewrite negb_false_iff. apply Qle_bool_iff. Qed.

Lemma truthy_false (v : Q) : Js.truthy v = false <-> (v == 0)%Q.
Proof. unfold Js.truthy. rewrite negb_false_iff. apply Qeq_bool_iff. Qed.

(** Above a threshold that is not negative the truthiness test of
    [x && x > t] decides nothing. *)
Lemma and_gt_some (v t : Q) : (0 <= t)%Q -> Js.and_gt (Some v) t = Js.gt v t.
Proof.
  intros Ht. simpl.
  destruct (Js.truthy v) eqn:Ev; [reflexivity|].
  apply truthy_false in Ev. simpl. symmetry.
  apply gt_false. rewrite Ev. exact Ht.
Qed.

Lemma gt_mono (v1 v2 t : Q) : (v1 <= v2)%Q -> Js.gt v1 t = true -> Js.gt v2 t = true.
Proof. rewrite !gt_spec. intros Hle Hlt. eapply Qlt_le_trans; eassumption. Qed.

Lemma gt_trans_threshold (v lo hi : Q) : (lo <= hi)%Q -> Js.gt v hi = true -> Js.gt v lo = true.
Proof. rewrite !gt_spec. intros Hle Hlt. eapply Qle_lt_trans; eassumption. Qed.

(** ** Rounding to a double *)

Section RoundingFacts.
Import Binary64.
Local Open Scope Q_scope.

Lemma pow2_pos (k : Z) : 0 < pow2 k.
Proof. apply Qpower_0_lt. reflexivity. Qed.

Lemma pow2_add (a b : Z) : pow2 (a + b) == pow2 a * pow2 b.
Proof. apply Qpower_plus. discriminate. Qed.

Lemma pow2_le (a b : Z) : (a <= b)%Z -> pow2 a <= pow2 b.
Proof. intros H. apply Qpower_le_compat_l; [exact H|discriminate]. Qed.

Lemma pow2_Z (k : Z) : (0 <= k)%Z -> inject_Z (2 ^ k) == pow2 k.
Proof. intros H. apply Zpower_Qpower. exact H. Qed.

(** Multiplying by a power of two keeps the order. *)
Lemma scale_le (x y : Q) (k : Z) : x <= y -> x * pow2 k <= y * pow2 k.
Proof. intros H. apply Qmult_le_compat_r; [exact H|apply Qlt_le_weak, pow2_pos]. Qed.

Lemma unscale (x : Q) (k : Z) : x / pow2 k * pow2 k == x.
Proof. field. intros H. pose proof (pow2_pos k). rewrite H in H0. discriminate. Qed.

Lemma flog2_spec (x : Q) :
  0 < x -> pow2 (flog2 x) <= x /\ x < pow2 (flog2 x + 1).
Proof.
  intros Hx. destruct x as [n d]. unfold flog2. cbn [Qnum Qden].
  assert (Hn : (0 < n)%Z) by (unfold Qlt in Hx; simpl in Hx; lia).
  set (a := Z.log2 n). set (b := Z.log2 (Z.pos d)).
  destruct (Z.log2_spec n Hn) as [Ha1 Ha2]. fold a in Ha1, Ha2.
  destruct (Z.log2_spec (Z.pos d) ltac:(lia)) as [Hb1 Hb2]. fold b in Hb1, Hb2.
  assert (Ha0 : (0 <= a)%Z) by apply Z.log2_nonneg.
  assert (Hb0 : (0 <= b)%Z) by apply Z.log2_nonneg.
  assert (Hup : n # d < pow2 (a - b + 1)).
  { apply (Qmult_lt_r _ _ (pow2 b) (pow2_pos b)).
    rewrite <- pow2_add. replace (a - b + 1 + b)%Z with (Z.succ a) by lia.
    rewrite <- !pow2_Z by lia.
    unfold Qlt, Qmult, inject_Z. simpl. nia. }
  assert (Hlo : pow2 (a - b - 1) <= n # d).
  { apply (Qmult_le_r _ _ (pow2 (Z.succ b)) (pow2_pos _)).
    rewrite <- pow2_add. replace (a - b - 1 + Z.succ b)%Z with a by lia.
    rewrite <- !pow2_Z by lia.
    unfold Qle, Qmult, inject_Z. simpl. nia. }
  destruct (Qle_bool (pow2 (a - b)) (n # d)) eqn:E.
  - apply Qle_bool_iff in E. split; assumption.
  - replace (a - b - 1 + 1)%Z with (a - b)%Z by lia. split; [exact Hlo|].
    apply Qnot_le_lt. intros H. apply Qle_bool_iff in H. congruence.
Qed.

Lemma expo_spec (x : Q) :
  0 < x ->
  (emin <= expo x)%Z /\ x < pow2 (expo x + 53)
  /\ ((emin < expo x)%Z -> pow2 (expo x + 52) <= x).
Proof.
  intros Hx. destruct (flog2_spec x Hx) as [Hlo Hup]. unfold expo.
  split; [lia|]. split.
  - eapply Qlt_le_trans; [exact Hup|]. apply pow2_le. lia.
  - intros H. replace (Z.max emin (flog2 x - 52) + 52)%Z with (flog2 x) by lia.
    exact Hlo.
Qed.

Lemma rne_bounds (q : Q) : (Qfloor q <= rne q <= Qceiling q)%Z.
Proof.
  unfold rne.
  assert (Hfc : (Qfloor q <= Qceiling q)%Z).
  { rewrite Zle_Qle. apply Qle_floor_ceiling. }
  assert (Hup : 0 < q - inject_Z (Qfloor q) -> (Qfloor q + 1 <= Qceiling q)%Z).
  { intros H. assert (Hlt : (Qfloor q < Qceiling q)%Z); [|lia].
    rewrite Zlt_Qlt. eapply Qlt_le_trans; [|apply Qle_ceiling]. lra. }
  destruct (Qcompare (q - inject_Z (Qfloor q)) (1 # 2)) eqn:E.
  - apply Qeq_alt in E. destruct (Z.even (Qfloor q)); [lia|].
    split; [lia|]. apply Hup. rewrite E. reflexivity.
  - lia.
  - apply Qgt_alt in E. split; [lia|]. apply Hup. lra.
Qed.

Lemma rescale (m ea e : Z) :
  (e <= ea)%Z -> inject_Z m * pow2 ea == inject_Z (m * 2 ^ (ea - e)) * pow2 e.
Proof.
  intros H. rewrite inject_Z_mult, pow2_Z by lia.
  rewrite <- Qmult_assoc, <- pow2_add. replace (ea - e + e)%Z with ea by lia.
  reflexivity.
Qed.

Lemma mantissa_bounds (x : Q) :
  0 < x ->
  0 < x / pow2 (expo x)
  /\ x / pow2 (expo x) < inject_Z (2 ^ 53)
  /\ ((emin < expo x)%Z -> inject_Z (2 ^ 52) <= x / pow2 (expo x)).
Proof.
  intros Hx. destruct (expo_spec x Hx) as (He & Hup & Hlo).
  pose proof (pow2_pos (expo x)) as Hp.
  split; [|split].
  - apply Qlt_shift_div_l; [exact Hp|]. lra.
  - apply Qlt_shift_div_r; [exact Hp|]. rewrite pow2_Z by lia.
    rewrite <- pow2_add. replace (53 + expo x)%Z with (expo x + 53)%Z by lia. exact Hup.
  - intros H. apply Qle_shift_div_l; [exact Hp|]. rewrite pow2_Z by lia.
    rewrite <- pow2_add. replace (52 + expo x)%Z with (expo x + 52)%Z by lia. auto.
Qed.

Lemma roundPositive_lower (x : Q) (m e : Z) :
  0 < x -> (emin <= e)%Z -> (0 <= m <= 2 ^ 53)%Z ->
  inject_Z m * pow2 e <= x -> inject_Z m * pow2 e <= roundPositive x.
Proof.
  intros Hx He Hm Hle. unfold roundPositive.
  destruct (mantissa_bounds x Hx) as (Hq0 & Hq1 & Hq2).
  destruct (expo_spec x Hx) as (Hemin & _ & _).
  pose proof (rne_bounds (x / pow2 (expo x))) as [Hr _].
  pose proof (pow2_pos (expo x)) as Hp.
  destruct (Z.le_gt_cases (expo x) e) as [Hee|Hee].
  - rewrite (rescale m e (expo x) Hee) in *.
    apply scale_le. rewrite <- Zle_Qle.
    etransitivity; [|exact Hr].
    rewrite <- (Qfloor_Z (m * 2 ^ (e - expo x))). apply Qfloor_resp_le.
    apply Qle_shift_div_l; assumption.
  - specialize (Hq2 ltac:(lia)).
    assert (H52 : (2 ^ 52 <= rne (x / pow2 (expo x)))%Z).
    { etransitivity; [|exact Hr]. rewrite <- (Qfloor_Z (2 ^ 52)).
      apply Qfloor_resp_le. exact Hq2. }
    apply Qle_trans with (inject_Z (2 ^ 53) * pow2 e).
    { apply scale_le. rewrite <- Zle_Qle. lia. }
    apply Qle_trans with (inject_Z (2 ^ 52) * pow2 (expo x)).
    { rewrite !pow2_Z by lia. rewrite <- !pow2_add. apply pow2_le. lia. }
    apply scale_le. rewrite <- Zle_Qle. exact H52.
Qed.

Lemma roundPositive_upper (x : Q) (m e : Z) :
  0 < x -> (emin <= e)%Z -> (0 <= m <= 2 ^ 53)%Z ->
  x <= inject_Z m * pow2 e -> roundPositive x <= inject_Z m * pow2 e.
Proof.
  intros Hx He Hm Hle. unfold roundPositive.
  destruct (mantissa_bounds x Hx) as (Hq0 & Hq1 & Hq2).
  destruct (expo_spec x Hx) as (Hemin & _ & Hlo).
  pose proof (rne_bounds (x / pow2 (expo x))) as [_ Hr].
  pose proof (pow2_pos (expo x)) as Hp.
  assert (Hceil : forall n : Z, x <= inject_Z n * pow2 (expo x) ->
                    (rne (x / pow2 (expo x)) <= n)%Z).
  { intros n Hn. etransitivity; [exact Hr|].
    rewrite <- (Qceiling_Z n). apply Qceiling_resp_le.
    apply Qle_shift_div_r; assumption. }
  destruct (Z.le_gt_cases (expo x) e) as [Hee|Hee].
  - rewrite (rescale m e (expo x) Hee) in *.
    apply scale_le. rewrite <- Zle_Qle. apply Hceil. exact Hle.
  - specialize (Hlo ltac:(lia)).
    assert (Hb : inject_Z m * pow2 e <= inject_Z (2 ^ 52) * pow2 (expo x)).
    { apply Qle_trans with (inject_Z (2 ^ 53) * pow2 e).
      - apply scale_le. rewrite <- Zle_Qle. lia.
      - rewrite !pow2_Z by lia. rewrite <- !pow2_add. apply pow2_le. lia. }
    apply Qle_trans with (inject_Z (2 ^ 52) * pow2 (expo x)).
    + apply scale_le. rewrite <- Zle_Qle. apply Hceil. lra.
    + rewrite pow2_Z by lia. rewrite <- pow2_add.
      replace (52 + expo x)%Z with (expo x + 52)%Z by lia. lra.
Qed.

Lemma roundPositive_representable (x : Q) :
  0 < x ->
  exists m, (0 <= m <= 2 ^ 53)%Z /\ (emin <= expo x)%Z
            /\ roundPositive x = inject_Z m * pow2 (expo x).
Proof.
  intros Hx. exists (rne (x / pow2 (expo x))).
  destruct (mantissa_bounds x Hx) as (Hq0 & Hq1 & _).
  destruct (expo_spec x Hx) as (Hemin & _ & _).
  pose proof (rne_bounds (x / pow2 (expo x))) as [Hlo Hup].
  split; [|split; [exact Hemin|reflexivity]]. split.
  - etransitivity; [|exact Hlo]. rewrite <- (Qfloor_Z 0). apply Qfloor_resp_le.
    apply Qlt_le_weak. exact Hq0.
  - etransitivity; [exact Hup|]. rewrite <- (Qceiling_Z (2 ^ 53)).
    apply Qceiling_resp_le. apply Qlt_le_weak. exact Hq1.
Qed.

Lemma representable_0 : representable 0.
Proof. exists 0%Z, 0%Z. unfold emin. repeat split; lia. Qed.

Lemma representable_opp (a : Q) : representable a -> representable (- a).
Proof.
  intros (m & e & He & Hm & Ha). exists (- m)%Z, e.
  split; [exact He|]. split; [lia|]. rewrite Ha, inject_Z_opp. ring.
Qed.

(** A positive representable number has a positive integer part. *)
Lemma representable_pos (a : Q) :
  representable a -> 0 < a ->
  exists m e, (emin <= e)%Z /\ (0 <= m <= 2 ^ 53)%Z /\ a == inject_Z m * pow2 e.
Proof.
  intros (m & e & He & Hm & Ha) Hpos. exists m, e.
  split; [exact He|]. split; [|exact Ha].
  split; [|lia]. destruct (Z.le_gt_cases 0 m) as [H|H]; [exact H|exfalso].
  pose proof (pow2_pos e) as Hp.
  assert (Hneg : inject_Z m <= 0) by (rewrite Zle_Qle in *; change 0 with (inject_Z 0); rewrite <- Zle_Qle; lia).
  assert (inject_Z m * pow2 e <= 0 * pow2 e) by (apply scale_le; exact Hneg).
  lra.
Qed.

Lemma roundPositive_nonneg (x : Q) : 0 < x -> 0 <= roundPositive x.
Proof.
  intros Hx. destruct (roundPositive_representable x Hx) as (m & Hm & _ & ->).
  pose proof (pow2_pos (expo x)).
  assert (0 * pow2 (expo x) <= inject_Z m * pow2 (expo x)).
  { apply scale_le. change 0 with (inject_Z 0). rewrite <- Zle_Qle. lia. }
  lra.
Qed.

Lemma round_representable (x : Q) : representable (round x).
Proof.
  unfold round. destruct (Qcompare_spec x 0) as [E|E|E].
  - apply representable_0.
  - apply representable_opp.
    assert (Hx : 0 < - x) by lra.
    destruct (roundPositive_representable (- x) Hx) as (m & Hm & He & ->).
    exists m, (expo (- x)). split; [exact He|]. split; [lia|reflexivity].
  - destruct (roundPositive_representable x E) as (m & Hm & He & ->).
    exists m, (expo x). split; [exact He|]. split; [lia|reflexivity].
Qed.

(** Rounding never crosses a double: it stays on the same side of every
    representable number as the number rounded. *)
Lemma round_lower (a x : Q) : representable a -> a <= x -> a <= round x.
Proof.
  intros Ha Hle. unfold round. destruct (Qcompare_spec x 0) as [E|E|E].
  - lra.
  - assert (Hx : 0 < - x) by lra. assert (Hpos : 0 < - a) by lra.
    destruct (representable_pos (- a) (representable_opp a Ha) Hpos)
      as (m & e & He & Hm & Ea).
    assert (H : roundPositive (- x) <= inject_Z m * pow2 e).
    { apply roundPositive_upper; try assumption. rewrite <- Ea. lra. }
    rewrite <- Ea in H. lra.
  - destruct (Qlt_le_dec 0 a) as [Hpos|Hneg].
    + destruct (representable_pos a Ha Hpos) as (m & e & He & Hm & Ea).
      rewrite Ea in *. apply roundPositive_lower; assumption.
    + pose proof (roundPositive_nonneg x E). lra.
Qed.

Lemma round_upper (b x : Q) : representable b -> x <= b -> round x <= b.
Proof.
  intros Hb Hle. unfold round. destruct (Qcompare_spec x 0) as [E|E|E].
  - lra.
  - assert (Hx : 0 < - x) by lra.
    destruct (Qlt_le_dec b 0) as [Hneg|Hpos].
    + assert (Hb' : 0 < - b) by lra.
      destruct (representable_pos (- b) (representable_opp b Hb) Hb')
        as (m & e & He & Hm & Eb).
      assert (H : inject_Z m * pow2 e <= roundPositive (- x)).
      { apply roundPositive_lower; try assumption. rewrite <- Eb. lra. }
      rewrite <- Eb in H. lra.
    + pose proof (roundPositive_nonneg (- x) Hx). lra.
  - assert (Hpos : 0 < b) by lra.
    destruct (representable_pos b Hb Hpos) as (m & e & He & Hm & Eb).
    rewrite Eb in *. apply roundPositive_upper; assumption.
Qed.

(** A double rounds to itself. *)
Lemma round_id (a : Q) : representable a -> round a == a.
Proof.
  intros Ha. apply Qle_antisym.
  - apply round_upper; [exact Ha|apply Qle_refl].
  - apply round_lower; [exact Ha|apply Qle_refl].
Qed.

End RoundingFacts.

(** ** The score *)

Section ScoreFacts.
Import Score.

Lemma rows_wellFormed :
  wellFormed fcpRow /\ wellFormed lcpRow /\ wellFormed fidRow /\ wellFormed clsRow.
Proof. repeat split; unfold Qle; simpl; lia. Qed.

(** One [if / else if] statement of the source subtracts the deduction of
    its row. *)
Lemma statement_deduction (r : row) (o : option Q) (score : Z) :
  wellFormed r ->
  (if Js.and_gt o (poorAbove r) then score - poorPenalty r
   else if Js.and_gt o (needsImprovementAbove r) then score - needsImprovementPenalty r
   else score) = score - deduction r o.
Proof.
  intros (Hni & Hle & _). destruct o as [v|]; simpl deduction.
  - rewrite !and_gt_some by (try assumption; eapply Qle_trans; eassumption).
    unfold tier. destruct (Js.gt v (poorAbove r)); [reflexivity|].
    destruct (Js.gt v (needsImprovementAbove r)); lia.
  - simpl. lia.
Qed.

Lemma scoreBeforeClamp_total (m : PerformanceMetrics) :
  scoreBeforeClamp m = 100 - totalDeduction m.
Proof.
  destruct rows_wellFormed as (Hfcp & Hlcp & Hfid & Hcls).
  unfold scoreBeforeClamp, totalDeduction. cbv zeta.
  pose proof (statement_deduction clsRow (cumulativeLayoutShift m)) as Ec.
  pose proof (statement_deduction fidRow (firstInputDelay m)) as Ei.
  pose proof (statement_deduction lcpRow (largestContentfulPaint m)) as El.
  pose proof (statement_deduction fcpRow (firstContentfulPaint m)) as Ef.
  simpl poorAbove in *. simpl needsImprovementAbove in *.
  simpl poorPenalty in *. simpl needsImprovementPenalty in *.
  rewrite Ec, Ei, El, Ef by assumption. lia.
Qed.

Lemma tier_bounds (r : row) (v : Q) :
  wellFormed r -> 0 <= tier r v <= poorPenalty r.
Proof.
  intros (_ & _ & Hp). unfold tier.
  destruct (Js.gt v (poorAbove r)); [lia|].
  destruct (Js.gt v (needsImprovementAbove r)); lia.
Qed.

Lemma deduction_bounds (r : row) (o : option Q) :
  wellFormed r -> 0 <= deduction r o <= poorPenalty r.
Proof.
  intros H. destruct o as [v|]; simpl; [apply tier_bounds; assumption|].
  destruct H as (_ & _ & Hp). lia.
Qed.

Lemma totalDeduction_bounds (m : PerformanceMetrics) : 0 <= totalDeduction m <= 70.
Proof.
  destruct rows_wellFormed as (Hfcp & Hlcp & Hfid & Hcls).
  pose proof (deduction_bounds fcpRow (firstContentfulPaint m) Hfcp).
  pose proof (deduction_bounds lcpRow (largestContentfulPaint m) Hlcp).
  pose proof (deduction_bounds fidRow (firstInputDelay m) Hfid).
  pose proof (deduction_bounds clsRow (cumulativeLayoutShift m) Hcls).
  unfold totalDeduction. simpl poorPenalty in *. lia.
Qed.

Lemma score_total (m : PerformanceMetrics) :
  calculatePerformanceScore m = 100 - totalDeduction m.
Proof.
  unfold calculatePerformanceScore. rewrite scoreBeforeClamp_total.
  pose proof (totalDeduction_bounds m). lia.
Qed.

(** A worse (larger) value never falls into a cheaper tier. *)
Lemma tier_mono (r : row) (v1 v2 : Q) :
  wellFormed r -> (v1 <= v2)%Q -> tier r v1 <= tier r v2.
Proof.
  intros (_ & Hle & Hp) Hv. unfold tier.
  destruct (Js.gt v1 (poorAbove r)) eqn:E1.
  - rewrite (gt_mono _ _ _ Hv E1). lia.
  - destruct (Js.gt v1 (needsImprovementAbove r)) eqn:E2.
    + destruct (Js.gt v2 (poorAbove r)); [lia|].
      rewrite (gt_mono _ _ _ Hv E2). lia.
    + destruct (Js.gt v2 (poorAbove r)); [lia|].
      destruct (Js.gt v2 (needsImprovementAbove r)); lia.
Qed.

Lemma rows_wellFormed_each (k : Metric) : wellFormed (rowOf k).
Proof.
  destruct rows_wellFormed as (Hfcp & Hlcp & Hfid & Hcls).
  destruct k; assumption.
Qed.

(** Changing one metric changes the deduction of its row only. *)
Lemma totalDeduction_setMetric (k : Metric) (o : option Q) (m : PerformanceMetrics) :
  totalDeduction (setMetric k o m)
  = totalDeduction (setMetric k None m) + deduction (rowOf k) o.
Proof. destruct k; unfold totalDeduction; simpl; lia. Qed.

Lemma score_setMetric (k : Metric) (v : Q) (m : PerformanceMetrics) :
  calculatePerformanceScore (setMetric k (Some v) m)
  = calculatePerformanceScore (setMetric k None m) - tier (rowOf k) v.
Proof. rewrite !score_total, totalDeduction_setMetric. simpl. lia. Qed.

(** C1: the score calculator applies at most one deduction tier per metric
    and tests the poor threshold first.  Against the same snapshot with
    the metric unset, a value above the poor threshold costs the poor
    penalty alone, a value above the needs-improvement threshold and not
    above the poor one costs the needs-improvement penalty, and any other
    value costs nothing; the snapshot
    [{FCP: 2000, LCP: 3000, FID: 50, CLS: 0.05}] scores 75. *)
Theorem score_one_tier_per_metric (k : Metric) (m : PerformanceMetrics) (v : Q) :
  ((poorAbove (rowOf k) < v)%Q ->
     calculatePerformanceScore (setMetric k (Some v) m)
     = calculatePerformanceScore (setMetric k None m) - poorPenalty (rowOf k))
  /\ ((needsImprovementAbove (rowOf k) < v)%Q -> (v <= poorAbove (rowOf k))%Q ->
     calculatePerformanceScore (setMetric k (Some v) m)
     = calculatePerformanceScore (setMetric k None m) - needsImprovementPenalty (rowOf k))
  /\ ((v <= needsImprovementAbove (rowOf k))%Q ->
     calculatePerformanceScore (setMetric k (Some v) m)
     = calculatePerformanceScore (setMetric k None m))
  /\ calculatePerformanceScore exampleSnapshot = 75.
Proof.
  pose proof (rows_wellFormed_each k) as (_ & Hle & _).
  rewrite score_setMetric. unfold tier. repeat split.
  - intros Hp. apply gt_spec in Hp. rewrite Hp. reflexivity.
  - intros Hn Hp. apply gt_spec in Hn. apply gt_false in Hp.
    rewrite Hp, Hn. reflexivity.
  - intros Hn.
    assert (Hp : (v <= poorAbove (rowOf k))%Q) by (eapply Qle_trans; eassumption).
    apply gt_false in Hn. apply gt_false in Hp. rewrite Hp, Hn. lia.
Qed.

Lemma score_one_tier_per_metric_witness :
  (poorAbove (rowOf FCP) < 2000)%Q
  /\ calculatePerformanceScore (setMetric FCP (Some 2000%Q) emptyMetrics)
     = calculatePerformanceScore (setMetric FCP None emptyMetrics) - poorPenalty (rowOf FCP).
Proof.
  assert (H : (poorAbove (rowOf FCP) < 2000)%Q) by reflexivity.
  split; [exact H|].
  exact (proj1 (score_one_tier_per_metric FCP emptyMetrics 2000%Q) H).
Defined.

(** C2: for every snapshot the score is an integer between 0 and 100; a
    metric that is unset contributes no deduction (the score is 100 less
    the deductions of the metrics that are set, and 100 when none is); and
    with the other metrics fixed, a worse (larger) value of one metric
    never gives a higher score. *)
Theorem score_range_unset_monotone (m : PerformanceMetrics) :
  0 <= calculatePerformanceScore m <= 100
  /\ calculatePerformanceScore m
     = 100 - (deduction fcpRow (firstContentfulPaint m)
              + deduction lcpRow (largestContentfulPaint m)
              + deduction fidRow (firstInputDelay m)
              + deduction clsRow (cumulativeLayoutShift m))
  /\ (forall r, deduction r None = 0)
  /\ calculatePerformanceScore emptyMetrics = 100
  /\ (forall k v, calculatePerformanceScore (setMetric k (Some v) m)
                  <= calculatePerformanceScore (setMetric k None m))
  /\ (forall k v1 v2, (v1 <= v2)%Q ->
        calculatePerformanceScore (setMetric k (Some v2) m)
        <= calculatePerformanceScore (setMetric k (Some v1) m)).
Proof.
  repeat split.
  - rewrite score_total. pose proof (totalDeduction_bounds m). lia.
  - rewrite score_total. pose proof (totalDeduction_bounds m). lia.
  - apply score_total.
  - intros k v. rewrite score_setMetric.
    pose proof (tier_bounds (rowOf k) v (rows_wellFormed_each k)). lia.
  - intros k v1 v2 Hv. rewrite !score_setMetric.
    pose proof (tier_mono (rowOf k) v1 v2 (rows_wellFormed_each k) Hv). lia.
Qed.

Lemma score_range_unset_monotone_witness :
  (1200 <= 1900)%Q
  /\ calculatePerformanceScore (setMetric FCP (Some 1900%Q) exampleSnapshot)
     <= calculatePerformanceScore (setMetric FCP (Some 1200%Q) exampleSnapshot).
Proof.
  assert (H : (1200 <= 1900)%Q) by (unfold Qle; simpl; lia).
  split; [exact H|].
  exact (proj2 (proj2 (proj2 (proj2 (proj2 (score_range_unset_monotone exampleSnapshot)))))
           FCP 1200%Q 1900%Q H).
Defined.

(** C10: the score is at least 30 for every snapshot: the deductions sum
    to at most 15 + 20 + 15 + 20 = 70, so [Math.max(0, score)] returns
    [score] unchanged and the score is never 0; the snapshot with every
    metric in its poor tier scores exactly 30. *)
Theorem score_at_least_30 (m : PerformanceMetrics) :
  30 <= calculatePerformanceScore m
  /\ calculatePerformanceScore m = scoreBeforeClamp m
  /\ calculatePerformanceScore m <> 0
  /\ 100 - scoreBeforeClamp m <= 15 + 20 + 15 + 20
  /\ calculatePerformanceScore worstSnapshot = 30.
Proof.
  pose proof (totalDeduction_bounds m) as Hb.
  pose proof (score_total m) as Hs.
  pose proof (scoreBeforeClamp_total m) as Hc.
  repeat split; try lia.
Qed.

End ScoreFacts.

(** ** The observers *)

Section ObserverFacts.
Import Monitor.

Lemma clsEntry_clsValue (s : Monitor.t) (e : LayoutShiftEntry.t) :
  clsValue (clsEntry s e)
  = if counted e then Binary64.add (clsValue s) (LayoutShiftEntry.value e) else clsValue s.
Proof. unfold clsEntry, counted. destruct (LayoutShiftEntry.hadRecentInput e); reflexivity. Qed.

Lemma clsObserver_clsValue (entries : list LayoutShiftEntry.t) (s : Monitor.t) :
  clsValue (clsObserver entries s) = shiftSum entries (clsValue s).
Proof.
  unfold clsObserver, shiftSum. revert s.
  induction entries as [|e entries IH]; intros s; simpl; [reflexivity|].
  rewrite IH, clsEntry_clsValue.
  destruct (counted e); reflexivity.
Qed.

(** Delivering entry lists one by one is delivering their concatenation. *)
Lemma deliver_cls_concat (batches : list (list LayoutShiftEntry.t)) (s : Monitor.t) :
  deliver clsObserver batches s = clsObserver (List.concat batches) s.
Proof.
  unfold deliver, clsObserver. revert s.
  induction batches as [|b batches IH]; intros s; simpl; [reflexivity|].
  rewrite IH, List.fold_left_app. reflexivity.
Qed.

Lemma filter_none {A} (f : A -> bool) (l : list A) :
  List.existsb f l = false -> List.filter f l = [].
Proof.
  induction l as [|x l IH]; simpl; [reflexivity|].
  destruct (f x); simpl; [discriminate|exact IH].
Qed.

Lemma clsObserver_metrics (entries : list LayoutShiftEntry.t) (s : Monitor.t) :
  cumulativeLayoutShift (metrics (clsObserver entries s))
  = if List.existsb counted entries
    then Some (clsValue (clsObserver entries s))
    else cumulativeLayoutShift (metrics s).
Proof.
  revert s. induction entries as [|e entries IH]; intros s; [reflexivity|].
  change (clsObserver (e :: entries) s) with (clsObserver entries (clsEntry s e)).
  rewrite IH. simpl List.existsb.
  destruct (counted e) eqn:Ee; simpl.
  - destruct (List.existsb counted entries) eqn:Ex; [reflexivity|].
    rewrite clsObserver_clsValue. unfold shiftSum.
    rewrite (filter_none _ _ Ex). simpl.
    unfold clsEntry. unfold counted in Ee. rewrite Ee. reflexivity.
  - unfold clsEntry. unfold counted in Ee. rewrite Ee. reflexivity.
Qed.

(** Adding a value that is not negative to a double does not give less:
    the rounded sum does not fall below the double it started from. *)
Lemma add_nonneg (acc v : Q) :
  Binary64.representable acc -> (0 <= v)%Q -> (acc <= Binary64.add acc v)%Q.
Proof.
  intros Hacc Hv. unfold Binary64.add. apply round_lower; [exact Hacc|lra].
Qed.

Lemma fold_add_representable (vs : list Q) (acc : Q) :
  Binary64.representable acc ->
  Binary64.representable (List.fold_left Binary64.add vs acc).
Proof.
  revert acc. induction vs as [|v vs IH]; intros acc Hacc; simpl; [exact Hacc|].
  apply IH. apply round_representable.
Qed.

Lemma fold_add_nonneg (vs : list Q) (acc : Q) :
  Binary64.representable acc ->
  Forall (fun v => (0 <= v)%Q) vs -> (acc <= List.fold_left Binary64.add vs acc)%Q.
Proof.
  revert acc. induction vs as [|v vs IH]; intros acc Hacc Hall; simpl.
  - apply Qle_refl.
  - inversion Hall as [|? ? Hv Hvs]; subst.
    eapply Qle_trans; [apply (add_nonneg acc v Hacc Hv)|].
    apply IH; [apply round_representable|exact Hvs].
Qed.

(** The accumulator of a session is a double. *)
Lemma clsObserver_representable (entries : list LayoutShiftEntry.t) (m : PerformanceMetrics) :
  Binary64.representable (clsValue (clsObserver entries (start m))).
Proof.
  rewrite clsObserver_clsValue. unfold shiftSum.
  apply fold_add_representable. apply representable_0.
Qed.

Lemma clsObserver_skips (entries : list LayoutShiftEntry.t) (s : Monitor.t) :
  Forall (fun e => LayoutShiftEntry.hadRecentInput e = true) entries ->
  clsObserver entries s = s.
Proof.
  intros Hall. unfold clsObserver.
  induction Hall as [|e entries He _ IH]; simpl; [reflexivity|].
  unfold clsEntry at 2. rewrite He. simpl. exact IH.
Qed.

(** The model rounds as the source does: from 0, the shifts [0.1] and
    [0.2] leave [0.30000000000000004] in the accumulator, the double
    [1351079888211149 / 2^52]. *)
Lemma clsObserver_rounds :
  let shift v := {| LayoutShiftEntry.hadRecentInput := false;
                    LayoutShiftEntry.value := v |} in
  (clsValue (clsObserver [shift Js.lit_0_1;
                          shift (3602879701896397 # 18014398509481984)]
               (start emptyMetrics))
   == 1351079888211149 # 4503599627370496)%Q.
Proof. vm_compute. reflexivity. Qed.

(** C3: for every sequence of layout-shift entry lists delivered to the
    CLS observer from the start of a session, the accumulator, seeded at
    0, is the sum of [value] over the entries seen so far whose
    [hadRecentInput] is false, the sum being formed as the source forms
    it, by additions of doubles in the order of arrival; it is the
    [cumulativeLayoutShift] of the snapshot as soon as one such entry was
    seen; entries whose [hadRecentInput] is true change neither; and
    further entries whose values are not negative do not decrease the
    accumulator. *)
Theorem cls_accumulator_is_sum (m : PerformanceMetrics)
    (batches : list (list LayoutShiftEntry.t)) :
  let s := deliver clsObserver batches (start m) in
  clsValue (start m) = 0%Q
  /\ clsValue s = shiftSum (List.concat batches) 0
  /\ cumulativeLayoutShift (metrics s)
     = (if List.existsb counted (List.concat batches)
        then Some (shiftSum (List.concat batches) 0)
        else cumulativeLayoutShift m)
  /\ (forall (s0 : Monitor.t) entries,
        Forall (fun e => LayoutShiftEntry.hadRecentInput e = true) entries ->
        clsObserver entries s0 = s0)
  /\ (forall entries,
        Forall (fun e => (0 <= LayoutShiftEntry.value e)%Q) entries ->
        (clsValue s <= clsValue (clsObserver entries s))%Q).
Proof.
  cbv zeta. rewrite deliver_cls_concat. repeat split.
  - apply clsObserver_clsValue.
  - rewrite clsObserver_metrics, clsObserver_clsValue. reflexivity.
  - intros s0 entries Hall. apply clsObserver_skips. exact Hall.
  - intros entries Hall.
    rewrite (clsObserver_clsValue entries). unfold shiftSum at 1.
    apply fold_add_nonneg; [apply clsObserver_representable|].
    induction Hall as [|e entries He _ IH]; simpl; [constructor|].
    destruct (counted e); simpl; [constructor; assumption|exact IH].
Qed.

Lemma cls_accumulator_is_sum_witness :
  let shift := {| LayoutShiftEntry.hadRecentInput := false;
                  LayoutShiftEntry.value := Js.lit_0_1 |} in
  let typed := {| LayoutShiftEntry.hadRecentInput := true;
                  LayoutShiftEntry.value := 1 # 2 |} in
  clsObserver [typed] (clsObserver [shift] (start emptyMetrics))
  = clsObserver [shift] (start emptyMetrics)
  /\ (clsValue (deliver clsObserver [[shift]] (start emptyMetrics))
      <= clsValue (clsObserver [shift; typed]
                     (deliver clsObserver [[shift]] (start emptyMetrics))))%Q.
Proof.
  cbv zeta. split.
  - apply (proj1 (proj2 (proj2 (proj2 (cls_accumulator_is_sum emptyMetrics []))))).
    repeat constructor.
  - apply (proj2 (proj2 (proj2 (proj2
             (cls_accumulator_is_sum emptyMetrics
                [[{| LayoutShiftEntry.hadRecentInput := false;
                     LayoutShiftEntry.value := Js.lit_0_1 |}]]))))).
    repeat constructor; unfold Qle; simpl; lia.
Defined.

(** *** The FCP observer *)

Lemma find_first_match {A} (f : A -> bool) (pre post : list A) (x : A) :
  List.forallb (fun y => negb (f y)) pre = true -> f x = true ->
  List.find f (pre ++ x :: post) = Some x.
Proof.
  intros Hpre Hx. induction pre as [|y pre IH]; simpl in *.
  - rewrite Hx. reflexivity.
  - apply andb_true_iff in Hpre as [Hy Hpre].
    apply negb_true_iff in Hy. rewrite Hy. exact (IH Hpre).
Qed.

Lemma find_existsb {A} (f : A -> bool) (l : list A) :
  List.existsb f l = match List.find f l with Some _ => true | None => false end.
Proof.
  induction l as [|x l IH]; simpl; [reflexivity|].
  destruct (f x); [reflexivity|exact IH].
Qed.

Lemma fcpObserver_updates (entries : list PerformanceEntry.t) (s : Monitor.t) :
  length (updates (fcpObserver entries s))
  = (length (updates s) + if List.existsb isFcp entries then 1 else 0)%nat.
Proof.
  unfold fcpObserver. rewrite find_existsb.
  destruct (List.find isFcp entries); simpl.
  - rewrite length_app. reflexivity.
  - lia.
Qed.

(** C5, as the code has it: within one entry list the FCP observer emits
    at most one update, for the first entry named first-contentful-paint,
    and ignores the entries after it; an entry list without such an entry
    emits nothing; over a session the observer emits once for every entry
    list that holds such an entry, later lists included. *)
Theorem fcp_once_per_entry_list (s : Monitor.t) (batches : list (list PerformanceEntry.t)) :
  (forall entries,
      (length (updates (fcpObserver entries s)) <= S (length (updates s)))%nat)
  /\ (forall pre e post,
        List.forallb (fun y => negb (isFcp y)) pre = true -> isFcp e = true ->
        fcpObserver (pre ++ e :: post) s
        = updateMetrics (fcpUpdate (PerformanceEntry.startTime e)) s)
  /\ (forall entries, List.existsb isFcp entries = false -> fcpObserver entries s = s)
  /\ length (updates (deliver fcpObserver batches s))
     = (length (updates s) + length (List.filter (List.existsb isFcp) batches))%nat.
Proof.
  repeat split.
  - intros entries. rewrite fcpObserver_updates.
    destruct (List.existsb isFcp entries); lia.
  - intros pre e post Hpre He. unfold fcpObserver.
    rewrite (find_first_match _ _ _ _ Hpre He). reflexivity.
  - intros entries Hnone. unfold fcpObserver.
    rewrite find_existsb in Hnone.
    destruct (List.find isFcp entries); [discriminate|reflexivity].
  - unfold deliver. revert s.
    induction batches as [|b batches IH]; intros s; simpl; [lia|].
    rewrite IH, fcpObserver_updates.
    destruct (List.existsb isFcp b); simpl; lia.
Qed.

Lemma fcp_once_per_entry_list_witness :
  fcpObserver ([firstPaintAt 640] ++ fcpAt 800 :: [fcpAt 950]) (start emptyMetrics)
  = updateMetrics (fcpUpdate 800) (start emptyMetrics).
Proof.
  apply (proj1 (proj2 (fcp_once_per_entry_list (start emptyMetrics) [])));
    reflexivity.
Defined.

(** C5, as it is worded, fails: two entry lists that each hold an entry
    named first-contentful-paint give two updates in one session, and the
    second one replaces the value of the first. *)
Lemma fcp_emits_again_in_later_batch :
  let s := deliver fcpObserver [[fcpAt 800]; [fcpAt 950]] (start emptyMetrics) in
  updates s = [fcpUpdate 800; fcpUpdate 950]
  /\ length (updates s) = 2%nat
  /\ firstContentfulPaint (metrics s) = Some 950%Q.
Proof. cbv zeta. repeat split. Qed.

(** *** The LCP observer *)

(** The last entry of the list wins, not the largest: for the start
    times 1200, 800, 2000 the emitted value is 2000, and for 1200, 2000,
    800 it is 800. *)
Lemma lcp_last_entry_wins :
  let paint t := {| PerformanceEntry.name := ""; PerformanceEntry.startTime := t |} in
  largestContentfulPaint
    (metrics (lcpObserver [paint 1200%Q; paint 800%Q; paint 2000%Q] (start emptyMetrics)))
  = Some 2000%Q
  /\ largestContentfulPaint
       (metrics (lcpObserver [paint 1200%Q; paint 2000%Q; paint 800%Q] (start emptyMetrics)))
     = Some 800%Q
  /\ lcpObserver [] (start emptyMetrics) = start emptyMetrics.
Proof. cbv zeta. repeat split. Qed.

(** *** The FID observer *)

Lemma bothNonZero_spec (e : FirstInputEntry.t) :
  bothNonZero e = true
  <-> exists p s, FirstInputEntry.processingStart e = Some p
               /\ FirstInputEntry.startTime e = Some s
               /\ ~ (p == 0)%Q /\ ~ (s == 0)%Q.
Proof.
  unfold bothNonZero. destruct e as [[p|] [s|]]; simpl.
  - rewrite andb_true_iff, !negb_true_iff. split.
    + intros [Hp Hs]. exists p, s. repeat split.
      * intros H. apply Qeq_bool_iff in H. congruence.
      * intros H. apply Qeq_bool_iff in H. congruence.
    + intros (p' & s' & Ep & Es & Hp & Hs). inversion Ep; inversion Es; subst.
      split.
      * destruct (Qeq_bool p' 0) eqn:E; [|reflexivity].
        apply Qeq_bool_iff in E. contradiction.
      * destruct (Qeq_bool s' 0) eqn:E; [|reflexivity].
        apply Qeq_bool_iff in E. contradiction.
  - split; [discriminate|]. intros (p' & s' & _ & Es & _). discriminate.
  - split; [discriminate|]. intros (p' & s' & Ep & _). discriminate.
  - split; [discriminate|]. intros (p' & s' & Ep & _). discriminate.
Qed.

Lemma fidEntry_cases (s : Monitor.t) (e : FirstInputEntry.t) :
  fidEntry s e = if bothNonZero e then updateMetrics (fidUpdate (delay e)) s else s.
Proof.
  unfold fidEntry, bothNonZero, delay, Js.truthy.
  destruct (FirstInputEntry.processingStart e) as [p|];
    destruct (FirstInputEntry.startTime e) as [t|]; reflexivity.
Qed.

(** C6, as the code has it: the FID observer emits exactly one update
    [{firstInputDelay: processingStart - startTime}] per entry whose
    [processingStart] and [startTime] are both present and both different
    from zero, in the order of the entries; every other entry, one with a
    field missing or equal to zero, is skipped and leaves the state as it
    was.  The callback is a total function: it raises nothing. *)
Theorem fid_one_update_per_truthy_entry (entries : list FirstInputEntry.t) (s : Monitor.t) :
  updates (fidObserver entries s)
  = updates s ++ List.map (fun e => fidUpdate (delay e)) (List.filter bothNonZero entries)
  /\ (forall e, bothNonZero e = true
        <-> exists p t, FirstInputEntry.processingStart e = Some p
                     /\ FirstInputEntry.startTime e = Some t
                     /\ ~ (p == 0)%Q /\ ~ (t == 0)%Q)
  /\ (forall e, bothNonZero e = false -> fidEntry s e = s)
  /\ (forall e, bothPresent e = false -> fidEntry s e = s).
Proof.
  repeat split.
  - unfold fidObserver. revert s.
    induction entries as [|e entries IH]; intros s; simpl.
    + rewrite app_nil_r. reflexivity.
    + rewrite IH, fidEntry_cases.
      destruct (bothNonZero e); simpl; [|reflexivity].
      rewrite <- app_assoc. reflexivity.
  - apply bothNonZero_spec.
  - apply bothNonZero_spec.
  - intros e He. rewrite fidEntry_cases, He. reflexivity.
  - intros e He. rewrite fidEntry_cases.
    unfold bothPresent in He. unfold bothNonZero.
    destruct (FirstInputEntry.processingStart e);
      destruct (FirstInputEntry.startTime e); try discriminate; reflexivity.
Qed.

Lemma fid_one_update_per_truthy_entry_witness :
  let e := {| FirstInputEntry.processingStart := None;
              FirstInputEntry.startTime := Some 1500%Q |} in
  fidEntry (start emptyMetrics) e = start emptyMetrics.
Proof.
  cbv zeta.
  apply (proj2 (proj2 (proj2 (fid_one_update_per_truthy_entry [] (start emptyMetrics)))));
    reflexivity.
Defined.

(** C6, as it is worded, fails: an entry with both fields present and
    [startTime] equal to 0 gives no update. *)
Lemma fid_skips_zero_startTime :
  let e := {| FirstInputEntry.processingStart := Some 12%Q;
              FirstInputEntry.startTime := Some 0%Q |} in
  bothPresent e = true
  /\ updates (fidObserver [e] (start emptyMetrics)) = []
  /\ firstInputDelay (metrics (fidObserver [e] (start emptyMetrics))) = None.
Proof. cbv zeta. repeat split. Qed.

End ObserverFacts.

(** ** Resource timing *)

Section ResourceFacts.
Import Monitor.

Lemma insertSorted_perm (x : ResourceTiming) (l : list ResourceTiming) :
  Permutation (insertSorted x l) (x :: l).
Proof.
  induction l as [|y l IH]; simpl; [reflexivity|].
  destruct (compareFn x y <=? 0)%Z; [reflexivity|].
  rewrite IH. apply perm_swap.
Qed.

Lemma sort_perm (l : list ResourceTiming) : Permutation (sort l) l.
Proof.
  induction l as [|x l IH]; simpl; [reflexivity|].
  rewrite insertSorted_perm, IH. reflexivity.
Qed.

Lemma insertSorted_sorted (x : ResourceTiming) (l : list ResourceTiming) :
  StronglySorted descending l -> StronglySorted descending (insertSorted x l).
Proof.
  induction l as [|y l IH]; intros Hs; simpl.
  - repeat constructor.
  - apply StronglySorted_inv in Hs as [Hl Hy].
    destruct (compareFn x y <=? 0)%Z eqn:E.
    + apply Z.leb_le in E. unfold compareFn in E.
      constructor; [constructor; assumption|].
      constructor; [unfold descending; lia|].
      eapply List.Forall_impl; [|exact Hy].
      unfold descending. intros z Hz. lia.
    + apply Z.leb_gt in E. unfold compareFn in E.
      constructor; [exact (IH Hl)|].
      apply List.Forall_forall. intros z Hz.
      apply (Permutation_in _ (insertSorted_perm x l)) in Hz.
      destruct Hz as [<-|Hz]; [unfold descending; lia|].
      rewrite List.Forall_forall in Hy. exact (Hy z Hz).
Qed.

Lemma sort_sorted (l : list ResourceTiming) : StronglySorted descending (sort l).
Proof.
  induction l as [|x l IH]; simpl; [constructor|].
  apply insertSorted_sorted. exact IH.
Qed.

Lemma in_firstn {A} (n : nat) (l : list A) (x : A) : In x (List.firstn n l) -> In x l.
Proof.
  intros H. rewrite <- (List.firstn_skipn n l). apply in_or_app. left. exact H.
Qed.

Lemma firstn_sorted {A} (R : A -> A -> Prop) (n : nat) (l : list A) :
  StronglySorted R l -> StronglySorted R (List.firstn n l).
Proof.
  revert n. induction l as [|x l IH]; intros [|n] Hs; simpl; try constructor.
  - apply IH. apply StronglySorted_inv in Hs. tauto.
  - apply StronglySorted_inv in Hs as [_ Hx].
    apply List.Forall_forall. intros y Hy.
    rewrite List.Forall_forall in Hx. apply Hx. eapply in_firstn. exact Hy.
Qed.

(** In a sorted list every element of a prefix is related to every
    element of the rest. *)
Lemma sorted_app_cross {A} (R : A -> A -> Prop) (l1 l2 : list A) :
  StronglySorted R (l1 ++ l2) -> forall x y, In x l1 -> In y l2 -> R x y.
Proof.
  induction l1 as [|a l1 IH]; intros Hs x y Hx Hy; [destruct Hx|].
  simpl in Hs. apply StronglySorted_inv in Hs as [Hs Ha].
  destruct Hx as [<-|Hx].
  - rewrite List.Forall_forall in Ha. apply Ha. apply in_or_app. right. exact Hy.
  - exact (IH Hs x y Hx Hy).
Qed.

Lemma largeResources_top (resourceEntries : list ResourceTiming) (e : ResourceTiming) :
  In e resourceEntries -> isLarge e = true ->
  In e (largeResources resourceEntries)
  \/ (length (largeResources resourceEntries) = 10%nat
      /\ Forall (fun x => descending x e) (largeResources resourceEntries)).
Proof.
  intros Hin Hbig. unfold largeResources.
  fold isLarge. set (L := sort (List.filter isLarge resourceEntries)).
  assert (HeL : In e L).
  { apply (Permutation_in _ (Permutation_sym (sort_perm _))).
    apply List.filter_In. split; assumption. }
  pose proof (sort_sorted (List.filter isLarge resourceEntries)) as Hs.
  fold L in Hs. rewrite <- (List.firstn_skipn 10 L) in HeL, Hs.
  apply in_app_or in HeL as [He|He]; [left; exact He|right].
  split.
  - rewrite List.length_firstn.
    destruct (Nat.le_gt_cases (length L) 10) as [Hle|Hgt]; [|lia].
    rewrite (List.skipn_all2 _ Hle) in He. destruct He.
  - apply List.Forall_forall. intros x Hx.
    exact (sorted_app_cross _ _ _ Hs x e Hx He).
Qed.

(** C9: each time resource timing is collected the [resourceTiming] field
    is derived anew from the entries the host returns, whatever it held
    before: the entries with more than 100,000 transferred bytes, in
    descending order of transferred size, cut to the first 10.  The
    retained entries are entries of the input above the threshold; an
    entry above the threshold that is left out is no larger than any
    retained one, and none is left out when at most 10 are above the
    threshold.  For the sizes [50000, 150000, 300000, 120000] the retained
    sizes are [300000, 150000, 120000]. *)
Theorem largeResources_rederived (resourceEntries : list ResourceTiming)
    (s1 s2 : Monitor.t) :
  let r := largeResources resourceEntries in
  resourceTiming (metrics (collectResourceTiming true true resourceEntries s1)) = Some r
  /\ resourceTiming (metrics (collectResourceTiming true true resourceEntries s1))
     = resourceTiming (metrics (collectResourceTiming true true resourceEntries s2))
  /\ r = List.firstn 10 (sort (List.filter isLarge resourceEntries))
  /\ Forall (fun e => In e resourceEntries /\ (100000 < transferSize e)%Z) r
  /\ StronglySorted descending r
  /\ (length r <= 10)%nat
  /\ (forall e, In e resourceEntries -> isLarge e = true ->
        In e r \/ (length r = 10%nat /\ Forall (fun x => descending x e) r))
  /\ ((length (List.filter isLarge resourceEntries) <= 10)%nat ->
        Permutation r (List.filter isLarge resourceEntries))
  /\ List.map transferSize (largeResources exampleResources) = [300000; 150000; 120000]%Z.
Proof.
  cbv zeta. repeat split.
  - apply List.Forall_forall. intros e He. unfold largeResources in He.
    apply in_firstn in He.
    apply (Permutation_in _ (sort_perm _)) in He.
    apply List.filter_In in He as [Hin Hbig].
    apply Z.ltb_lt in Hbig. split; assumption.
  - unfold largeResources. apply firstn_sorted, sort_sorted.
  - unfold largeResources. rewrite List.length_firstn. lia.
  - intros e Hin Hbig. apply largeResources_top; assumption.
  - intros Hlen. unfold largeResources. fold isLarge.
    rewrite List.firstn_all2.
    + apply sort_perm.
    + rewrite (Permutation_length (sort_perm _)). exact Hlen.
Qed.

Lemma largeResources_rederived_witness :
  (length (List.filter isLarge exampleResources) <= 10)%nat
  /\ Permutation (largeResources exampleResources) (List.filter isLarge exampleResources).
Proof.
  assert (H : (length (List.filter isLarge exampleResources) <= 10)%nat)
    by (vm_compute; lia).
  split; [exact H|].
  exact (proj1 (proj2 (proj2 (proj2 (proj2 (proj2 (proj2 (proj2
    (largeResources_rederived exampleResources
       (start emptyMetrics) (start emptyMetrics))))))))) H).
Defined.

(** With [enableResourceTiming] off, or without the timing interface,
    nothing is collected. *)
Lemma collectResourceTiming_gated (hasPerformance : bool)
    (resourceEntries : list ResourceTiming) (s : Monitor.t) :
  collectResourceTiming false hasPerformance resourceEntries s = s
  /\ collectResourceTiming true false resourceEntries s = s.
Proof. split; reflexivity. Qed.

End ResourceFacts.

(** ** Set-up and cleanup of the monitor *)

Section LifecycleFacts.
Import Lifecycle.

(** The cleanup disconnects the observer held in [observerRef] and no
    other one, and it cancels no timeout. *)
Lemma cleanup_spares_the_others (h : Host) (o : Observer) :
  observerRef h <> Some o -> fires o (cleanup h) = fires o h.
Proof.
  intros Hne. unfold cleanup. destruct (observerRef h) as [c|]; [|reflexivity].
  unfold fires, disconnect. simpl.
  induction (observing h) as [|x l IH]; simpl; [reflexivity|].
  destruct (Observer_eqb x c) eqn:Exc; simpl.
  - destruct (Observer_eqb o x) eqn:Eox; [|exact IH].
    exfalso. apply Hne. destruct o, x, c; simpl in *; congruence.
  - rewrite IH. reflexivity.
Qed.

Lemma cleanup_keeps_timeouts (h : Host) :
  pendingTimeouts (cleanup h) = pendingTimeouts h
  /\ loadListener (cleanup h) = loadListener h.
Proof. unfold cleanup. destruct (observerRef h); split; reflexivity. Qed.

(** C4, on the code: a component is mounted where all four observers can
    observe and the document is still loading, the window fires its load
    event, and the component is torn down.  The four observers were
    observing and one timeout was pending; after the cleanup the LCP, FID
    and CLS observers are still observing, so their callbacks still fire,
    and the timeout is still pending and runs the collection when it
    elapses.  Only the FCP observer, the one stored in [observerRef], is
    disconnected. *)
Theorem cleanup_disconnects_only_fcp :
  let mounted := load (mount true (fun _ => true) false initial) in
  let torn := cleanup mounted in
  observing mounted = [Fcp; Lcp; Fid; Cls]
  /\ pendingTimeouts mounted = 1%nat
  /\ observing torn = [Lcp; Fid; Cls]
  /\ fires Fcp torn = false
  /\ fires Lcp torn = true
  /\ fires Fid torn = true
  /\ fires Cls torn = true
  /\ pendingTimeouts torn = 1%nat
  /\ collected torn = 0%nat
  /\ collected (timeout torn) = 1%nat.
Proof. cbv zeta. repeat split. Qed.

(** When [observe] throws part-way, the observers subscribed before the
    throw stay subscribed and the cleanup has nothing to disconnect. *)
Lemma cleanup_after_throw :
  let accepts o := match o with Fid => false | _ => true end in
  let torn := cleanup (mount true accepts true initial) in
  observerRef torn = None /\ observing torn = [Fcp; Lcp].
Proof. cbv zeta. split; reflexivity. Qed.

End LifecycleFacts.

(** ** The debounced value *)

Section DebounceFacts.
Import Debounce.
Context {T : Type}.

(** The calls of one handler leave the state of the last render, the
    debounced state, and the closure alone. *)
Lemma calls_rendered (debounceMs now : nat) (calls : list (SetStateAction T)) (h : Debounce.t T) :
  let h' := List.fold_left (fun h value => setOptimizedState debounceMs now value h) calls h in
  rendered h' = rendered h /\ debouncedState h' = debouncedState h.
Proof.
  cbv zeta. revert h. induction calls as [|c calls IH]; intros h; simpl.
  - split; reflexivity.
  - destruct (IH (setOptimizedState debounceMs now c h)) as [-> ->].
    split; reflexivity.
Qed.

(** A handler whose last call passes a plain value: the immediate value
    is that value at once; the delayed value keeps what it had until the
    window has elapsed, and is that value from then on. *)
Lemma plain_value_settles (debounceMs now : nat) (calls : list (SetStateAction T))
    (v : T) (h : Debounce.t T) :
  let h' := handler debounceMs now (calls ++ [Value v]) h in
  state h' = v
  /\ (forall time, (time < now + debounceMs)%nat -> elapse time h' = h')
  /\ (forall time, (now + debounceMs <= time)%nat ->
        debouncedState (elapse time h') = v /\ state (elapse time h') = v).
Proof.
  cbv zeta. unfold handler. rewrite List.fold_left_app. simpl.
  split; [reflexivity|]. split; intros time Ht; unfold elapse; simpl.
  - destruct (Nat.leb_spec (now + debounceMs) time); [lia|reflexivity].
  - destruct (Nat.leb_spec (now + debounceMs) time); [split; reflexivity|lia].
Qed.

(** X25: a handler that makes a single call, plain or functional, over a
    state that was rendered: when the timer fires the delayed value is
    the immediate value. *)
Lemma single_call_settles (debounceMs now : nat) (a : SetStateAction T)
    (h : Debounce.t T) (time : nat) :
  rendered h = state h -> (now + debounceMs <= time)%nat ->
  let h' := elapse time (handler debounceMs now [a] h) in
  debouncedState h' = state h' /\ state h' = applyAction a (state h).
Proof.
  intros Hr Ht. cbv zeta. unfold handler. simpl.
  assert (He : rendered (elapse now h) = state (elapse now h)
               /\ state (elapse now h) = state h).
  { unfold elapse. destruct (timeoutRef h) as [tm|]; [|split; [exact Hr|reflexivity]].
    destruct (fireAt tm <=? now)%nat; simpl; split; try reflexivity. exact Hr. }
  destruct He as [He1 He2].
  remember (elapse now h) as g eqn:Eg. clear Eg.
  unfold elapse, render, setOptimizedState. simpl.
  destruct (Nat.leb_spec (now + debounceMs) time); [|lia]. simpl.
  unfold timerValue. simpl. rewrite He1, He2.
  destruct a; split; reflexivity.
Qed.

End DebounceFacts.

(** The worked example: updates at 0, 50 and 100 ms with a window of
    300 ms.  The delayed value is still the initial one at 399 ms and is
    the value of the update of 100 ms at 400 ms. *)
Lemma debounce_example :
  let h := Debounce.handler 300 100 [Debounce.Value "c"]
             (Debounce.handler 300 50 [Debounce.Value "b"]
                (Debounce.handler 300 0 [Debounce.Value "a"]
                   (Debounce.useOptimizedState ""))) in
  Debounce.state h = "c"
  /\ Debounce.debouncedState (Debounce.elapse 399 h) = ""
  /\ Debounce.debouncedState (Debounce.elapse 400 h) = "c".
Proof. cbv zeta. repeat split. Qed.

(** C7, on the code: from the state 0, one handler calls
    [setOptimizedState(prev => prev + 1)] twice.  The immediate value is
    2 at once.  When the timer fires, 300 ms later, its callback applies
    the function to the state of the render the handler ran in, 0, and the
    delayed value is 1 and stays 1, not the immediate value 2. *)
Theorem debounce_functional_update_is_stale :
  let h := Debounce.handler 300 0
             [Debounce.Updater Z.succ; Debounce.Updater Z.succ]
             (Debounce.useOptimizedState 0%Z) in
  Debounce.state h = 2%Z
  /\ Debounce.state (Debounce.elapse 300 h) = 2%Z
  /\ Debounce.debouncedState (Debounce.elapse 300 h) = 1%Z
  /\ Debounce.timeoutRef (Debounce.elapse 300 h) = None.
Proof. cbv zeta. repeat split. Qed.

(** ** The batched updates *)

Section BatchFacts.
Import Batch.
Context {V : Type}.

Lemma useBatchedState_oneTimer (initialState : gmap string V) :
  oneTimer (useBatchedState initialState).
Proof. left. reflexivity. Qed.

(** After a call exactly one timer is set: the earlier one was cleared. *)
Lemma batchedSetState_timers (updates : gmap string V) (h : Batch.t V) :
  oneTimer h ->
  timers (batchedSetState updates h) = [nextHandle h]
  /\ batchTimeoutRef (batchedSetState updates h) = Some (nextHandle h).
Proof.
  intros [Hnone|(handle & Href & Hone)]; unfold batchedSetState; simpl.
  - rewrite Hnone. destruct (batchTimeoutRef h); split; reflexivity.
  - rewrite Href, Hone. simpl. rewrite Pos.eqb_refl. split; reflexivity.
Qed.

Lemma batchedSetState_oneTimer (updates : gmap string V) (h : Batch.t V) :
  oneTimer h -> oneTimer (batchedSetState updates h).
Proof.
  intros H. destruct (batchedSetState_timers updates h H) as [Ht Hr].
  right. exists (nextHandle h). split; assumption.
Qed.

Lemma submit_spec (calls : list (gmap string V)) (h : Batch.t V) :
  oneTimer h ->
  oneTimer (submit calls h)
  /\ state (submit calls h) = state h
  /\ queue (submit calls h) = queue h
  /\ flushes (submit calls h) = flushes h
  /\ pendingUpdatesRef (submit calls h) = accumulate calls (pendingUpdatesRef h)
  /\ (calls <> [] -> exists handle, timers (submit calls h) = [handle]).
Proof.
  unfold submit, accumulate. revert h.
  induction calls as [|u calls IH]; intros h Hone; simpl.
  - repeat split; try assumption. intros Hne. contradiction.
  - destruct (IH (batchedSetState u h) (batchedSetState_oneTimer u h Hone))
      as (H1 & H2 & Hq & H3 & H4 & H5).
    repeat split; try assumption.
    intros _. destruct calls as [|u' calls'].
    + simpl. exists (nextHandle h).
      apply (batchedSetState_timers u h Hone).
    + apply H5. discriminate.
Qed.

(** One timer set and no update queued: the tick runs one flush and
    leaves the accumulator empty.  What is committed depends on when
    React runs the updater: at dispatch it reads the accumulator as it
    stands, as React renders it reads the emptied one. *)
Lemma tick_one_timer (eager : bool) (h : Batch.t V) (handle : positive) :
  timers h = [handle] -> queue h = [] ->
  timers (tick eager h) = [] /\ pendingUpdatesRef (tick eager h) = ∅
  /\ queue (tick eager h) = []
  /\ state (tick eager h) = (if eager then pendingUpdatesRef h else ∅) ∪ state h
  /\ flushes (tick eager h) = S (flushes h).
Proof.
  intros Ht Hq.
  destruct h as [st q pend ref ts next fl]. simpl in Ht, Hq. subst ts q.
  destruct eager; repeat split.
Qed.

(** One round from a hook at rest: the calls, then the tick.  One flush
    runs when there was a call.  The calls are committed when React
    computed the update at dispatch; when React runs the updater as it
    renders, the updater finds the accumulator already emptied and the
    state stays as it was. *)
Lemma batch_round (calls : list (gmap string V)) (eager : bool) (h : Batch.t V) :
  timers h = [] -> pendingUpdatesRef h = ∅ -> queue h = [] ->
  let h' := tick eager (submit calls h) in
  timers h' = [] /\ pendingUpdatesRef h' = ∅ /\ queue h' = []
  /\ state h' = (if eager then accumulate calls ∅ else ∅) ∪ state h
  /\ flushes h' = (flushes h + match calls with [] => 0 | _ => 1 end)%nat.
Proof.
  intros Ht Hp Hq. cbv zeta.
  destruct calls as [|u calls].
  - unfold submit, tick, fire, render. simpl. rewrite Ht. simpl. rewrite Hq. simpl.
    repeat split; [exact Hp| |lia].
    unfold accumulate. simpl. symmetry.
    destruct eager; apply (left_id_L ∅ (∪)).
  - assert (Hone : oneTimer h) by (left; exact Ht).
    destruct (submit_spec (u :: calls) h Hone) as (_ & Hs & Hqs & Hf & Hpend & Htimer).
    destruct (Htimer ltac:(discriminate)) as (handle & Hh).
    rewrite Hq in Hqs.
    destruct (tick_one_timer eager _ handle Hh Hqs) as (H1 & H2 & H3 & H4 & H5).
    rewrite Hs, Hpend, Hp in H4. rewrite Hf in H5.
    repeat split; try assumption. lia.
Qed.

End BatchFacts.

(** The accumulator of the worked example. *)
Lemma accumulate_example :
  Batch.accumulate [{["a" := 1%Z]}; {["b" := 2%Z]}; {["a" := 3%Z]}] ∅
  = ({["a" := 3%Z; "b" := 2%Z]} : gmap string Z).
Proof.
  unfold Batch.accumulate. simpl.
  apply map_eq. intros k.
  destruct (decide (k = "a")) as [->|Ha]; [reflexivity|].
  destruct (decide (k = "b")) as [->|Hb]; [reflexivity|].
  rewrite !lookup_union, !lookup_insert_ne, !lookup_singleton_ne, lookup_empty by congruence.
  reflexivity.
Qed.

(** C8, on the code: the three partial updates [{a: 1}], [{b: 2}],
    [{a: 3}] are submitted before the next tick.  One timer is set and
    the accumulator holds [{a: 3, b: 2}]; the tick runs one flush and
    empties the accumulator.  The flush hands React an updater that reads
    the accumulator when it is run.  When React runs it as it renders,
    after the callback has emptied the accumulator, nothing is merged:
    the committed state is the initial state and the three updates are
    lost.  Only when React runs the updater at once, at the [setState]
    call, is the committed state the initial state overwritten with
    [{a: 3, b: 2}]. *)
Theorem batched_updates_lost_by_late_updater (initialState : gmap string Z) :
  let submitted :=
    Batch.batchedSetState {["a" := 3%Z]}
      (Batch.batchedSetState {["b" := 2%Z]}
         (Batch.batchedSetState {["a" := 1%Z]} (Batch.useBatchedState initialState))) in
  length (Batch.timers submitted) = 1%nat
  /\ Batch.pendingUpdatesRef submitted = {["a" := 3%Z; "b" := 2%Z]}
  /\ Batch.flushes (Batch.tick false submitted) = 1%nat
  /\ Batch.pendingUpdatesRef (Batch.tick false submitted) = ∅
  /\ Batch.state (Batch.tick false submitted) = initialState
  /\ Batch.flushes (Batch.tick true submitted) = 1%nat
  /\ Batch.state (Batch.tick true submitted) = {["a" := 3%Z; "b" := 2%Z]} ∪ initialState.
Proof.
  cbv zeta.
  change (Batch.batchedSetState {["a" := 3%Z]}
           (Batch.batchedSetState {["b" := 2%Z]}
              (Batch.batchedSetState {["a" := 1%Z]} (Batch.useBatchedState initialState))))
    with (Batch.submit [{["a" := 1%Z]}; {["b" := 2%Z]}; {["a" := 3%Z]}]
            (Batch.useBatchedState initialState)).
  destruct (batch_round [{["a" := 1%Z]}; {["b" := 2%Z]}; {["a" := 3%Z]}] false
              (Batch.useBatchedState initialState) eq_refl eq_refl eq_refl)
    as (_ & Hp0 & _ & Hs0 & Hf0).
  destruct (batch_round [{["a" := 1%Z]}; {["b" := 2%Z]}; {["a" := 3%Z]}] true
              (Batch.useBatchedState initialState) eq_refl eq_refl eq_refl)
    as (_ & _ & _ & Hs1 & Hf1).
  destruct (submit_spec [{["a" := 1%Z]}; {["b" := 2%Z]}; {["a" := 3%Z]}] _
              (useBatchedState_oneTimer initialState))
    as (_ & _ & _ & _ & Hpend & _).
  change (Batch.pendingUpdatesRef (Batch.useBatchedState initialState))
    with (∅ : gmap string Z) in Hpend.
  rewrite accumulate_example in Hs1, Hpend.
  split; [reflexivity|]. split; [exact Hpend|]. split; [exact Hf0|].
  split; [exact Hp0|]. split.
  - rewrite Hs0. apply (left_id_L ∅ (∪)).
  - split; [exact Hf1|exact Hs1].
Qed.

(** ** Teardown of the two hooks *)

(** Both hooks cancel their pending timer when the component unmounts:
    nothing of theirs fires afterwards. *)
Lemma hooks_cancel_on_unmount {T V : Type} (d : Debounce.t T) (b : Batch.t V)
    (now : nat) (eager : bool) :
  Batch.oneTimer b ->
  Debounce.elapse now (Debounce.unmount d) = Debounce.unmount d
  /\ Batch.timers (Batch.unmount b) = []
  /\ Batch.fire eager (Batch.unmount b) = Batch.unmount b.
Proof.
  intros Hone.
  assert (Ht : Batch.timers (Batch.unmount b) = []).
  { unfold Batch.unmount. simpl.
    destruct Hone as [Hnone|(handle & Href & Hh)].
    - rewrite Hnone. destruct (Batch.batchTimeoutRef b); reflexivity.
    - rewrite Href, Hh. simpl. rewrite Pos.eqb_refl. reflexivity. }
  repeat split; [exact Ht|].
  destruct (Batch.unmount b) as [st q pend ref ts next fl]. simpl in Ht.
  subst ts. reflexivity.
Qed.

(** ** Merging updates into the snapshot *)

Section MergeFacts.
Import Monitor.

Lemma spread_empty_r (m : PerformanceMetrics) : spread m emptyMetrics = m.
Proof. destruct m; reflexivity. Qed.

Lemma spread_assoc (a b c : PerformanceMetrics) :
  spread (spread a b) c = spread a (spread b c).
Proof.
  destruct a, b, c. unfold spread. simpl. f_equal.
  all: repeat match goal with
       | |- context [match ?x with _ => _ end] => destruct x
       end; reflexivity.
Qed.

(** The calls of [updateMetrics], one per element of [ps]. *)
Lemma updateMetrics_fold (ps : list PartialMetrics) (s : Monitor.t) :
  let s' := List.fold_left (fun s p => updateMetrics p s) ps s in
  metrics s' = spread (metrics s) (List.fold_left spread ps emptyMetrics)
  /\ updates s' = updates s ++ ps
  /\ length (notified s') = (length (notified s) + length ps)%nat
  /\ (ps <> [] -> lastOf (notified s') = Some (metrics s')).
Proof.
  cbv zeta. revert s. induction ps as [|p ps IH] using rev_ind; intros s.
  - simpl. rewrite spread_empty_r, app_nil_r. repeat split; try lia.
    intros H. contradiction.
  - rewrite !List.fold_left_app. simpl.
    destruct (IH s) as (Hm & Hu & Hn & _).
    repeat split.
    + rewrite Hm, spread_assoc. reflexivity.
    + rewrite Hu, <- app_assoc. reflexivity.
    + rewrite !length_app, Hn. simpl. lia.
    + intros _. unfold lastOf. cbn [notified metrics updateMetrics].
      rewrite List.map_app. simpl List.map. rewrite List.last_last. reflexivity.
Qed.

(** X1: any number of [updateMetrics] calls from the start of a session
    leaves the snapshot equal to the earlier snapshot overwritten by the
    merge of the partial updates (field by field the last update that has
    the field wins); every call notifies [onMetricsUpdate] once, and the
    snapshot of the last notification is the current one. *)
Theorem updateMetrics_merges_and_notifies (m : PerformanceMetrics) (ps : list PartialMetrics) :
  let s := List.fold_left (fun s p => updateMetrics p s) ps (start m) in
  metrics s = spread m (List.fold_left spread ps emptyMetrics)
  /\ updates s = ps
  /\ length (notified s) = length ps
  /\ (ps = [] \/ lastOf (notified s) = Some (metrics s))
  /\ (forall a b c, spread (spread a b) c = spread a (spread b c))
  /\ (forall a, spread a emptyMetrics = a /\ spread emptyMetrics a = a).
Proof.
  cbv zeta. destruct (updateMetrics_fold ps (start m)) as (Hm & Hu & Hn & Hl).
  split; [exact Hm|]. split; [exact Hu|]. split; [exact Hn|]. split.
  - destruct ps as [|p ps']; [left; reflexivity|right; apply Hl; discriminate].
  - split; [apply spread_assoc|].
    intros a. split; [apply spread_empty_r|].
    destruct a as [[?|] [?|] [?|] [?|] [?|] [?|] [?|] [?|]]; reflexivity.
Qed.

End MergeFacts.

(** ** Each callback writes its own field *)

Section FieldFacts.
Import Monitor.

Lemma absent_spread (k : source) (p q : PartialMetrics) :
  absent k p -> absent k q -> absent k (spread p q).
Proof. destruct k; simpl; intros Hp Hq; rewrite Hq; exact Hp. Qed.

Lemma absent_sameField (k : source) (m p : PerformanceMetrics) :
  absent k p -> sameField k m (spread m p).
Proof. destruct k; simpl; intros Hp; rewrite Hp; reflexivity. Qed.

Lemma only_spread (k0 : source) (p q : PartialMetrics) :
  only k0 p -> only k0 q -> only k0 (spread p q).
Proof.
  intros (Hp1 & Hp2 & Hp) (Hq1 & Hq2 & Hq). repeat split.
  - simpl. rewrite Hq1. exact Hp1.
  - simpl. rewrite Hq2. exact Hp2.
  - intros k Hk. apply absent_spread; auto.
Qed.

Lemma only_empty (k0 : source) : only k0 emptyMetrics.
Proof. repeat split. intros k _. destruct k; reflexivity. Qed.

(** A [forEach] whose body merges updates of one callback merges one
    such update in all. *)
Lemma forEach_only {E} (k0 : source) (body : Monitor.t -> E -> Monitor.t) :
  (forall s e, exists p, metrics (body s e) = spread (metrics s) p /\ only k0 p) ->
  forall entries s,
    exists p, metrics (List.fold_left body entries s) = spread (metrics s) p /\ only k0 p.
Proof.
  intros Hbody entries. induction entries as [|e entries IH]; intros s; simpl.
  - exists emptyMetrics. split; [symmetry; apply spread_empty_r|apply only_empty].
  - destruct (IH (body s e)) as (q & Hq & Oq).
    destruct (Hbody s e) as (p & Hp & Op).
    exists (spread p q). split; [|apply only_spread; assumption].
    rewrite Hq, Hp. apply spread_assoc.
Qed.

Ltac one_update k0 :=
  eexists; split; [reflexivity|];
  repeat split; intros k Hk; destruct k; try reflexivity; contradiction.

Ltac no_update k0 :=
  exists emptyMetrics; split; [symmetry; apply spread_empty_r|apply only_empty].

Lemma handle_only (d : delivery) (s : Monitor.t) :
  exists p, metrics (handle s d) = spread (metrics s) p /\ only (sourceOf d) p.
Proof.
  destruct d as [entries|entries|entries|entries|has entries|enable has entries]; simpl.
  - unfold fcpObserver. destruct (List.find isFcp entries);
      [one_update FromPaint|no_update FromPaint].
  - unfold lcpObserver. destruct (List.last (List.map Some entries) None);
      [one_update FromLargestPaint|no_update FromLargestPaint].
  - unfold fidObserver. apply forEach_only. intros s0 e.
    rewrite fidEntry_cases. destruct (bothNonZero e);
      [one_update FromFirstInput|no_update FromFirstInput].
  - unfold clsObserver. apply forEach_only. intros s0 e.
    unfold clsEntry. destruct (negb (LayoutShiftEntry.hadRecentInput e));
      [one_update FromLayoutShift|no_update FromLayoutShift].
  - unfold collectNavigationTiming. destruct has; [|no_update FromNavigation].
    destruct entries; [no_update FromNavigation|one_update FromNavigation].
  - unfold collectResourceTiming. destruct enable; simpl; [|no_update FromResources].
    destruct has; [one_update FromResources|no_update FromResources].
Qed.

Lemma session_spread (ds : list delivery) (s : Monitor.t) :
  exists p, metrics (session ds s) = spread (metrics s) p
         /\ totalBlockingTime p = None /\ timeToInteractive p = None
         /\ forall k, without k ds -> absent k p.
Proof.
  unfold session. revert s. induction ds as [|d ds IH]; intros s; simpl.
  - exists emptyMetrics. split; [symmetry; apply spread_empty_r|].
    repeat split. intros k _. destruct k; reflexivity.
  - destruct (IH (handle s d)) as (q & Hq & Hq1 & Hq2 & Aq).
    destruct (handle_only d s) as (p & Hp & Hp1 & Hp2 & Ap).
    exists (spread p q). split; [rewrite Hq, Hp; apply spread_assoc|].
    repeat split.
    + simpl. rewrite Hq1. exact Hp1.
    + simpl. rewrite Hq2. exact Hp2.
    + intros k Hk. inversion Hk as [|? ? Hd Hds]; subst.
      apply absent_spread; [apply Ap; congruence|apply Aq; exact Hds].
Qed.

(** X2: over any session (entry lists to the four observers, navigation
    and resource collections, in any order) a field of the snapshot
    changes only through its own callback: with no delivery to the
    callback of a field, the field keeps its value; and no callback ever
    writes [totalBlockingTime] or [timeToInteractive]. *)
Theorem callbacks_write_their_own_field (ds : list delivery) (s : Monitor.t) :
  totalBlockingTime (metrics (session ds s)) = totalBlockingTime (metrics s)
  /\ timeToInteractive (metrics (session ds s)) = timeToInteractive (metrics s)
  /\ forall k, without k ds -> sameField k (metrics s) (metrics (session ds s)).
Proof.
  destruct (session_spread ds s) as (p & Hp & Hp1 & Hp2 & Ap).
  rewrite Hp. repeat split.
  - simpl. rewrite Hp1. reflexivity.
  - simpl. rewrite Hp2. reflexivity.
  - intros k Hk. apply absent_sameField. apply Ap. exact Hk.
Qed.

Lemma callbacks_write_their_own_field_witness :
  let ds := [LayoutShift [{| LayoutShiftEntry.hadRecentInput := false;
                             LayoutShiftEntry.value := 1 # 10 |}];
             LargestPaint [fcpAt 1200]] in
  without FromPaint ds
  /\ sameField FromPaint (metrics (start Score.exampleSnapshot))
       (metrics (session ds (start Score.exampleSnapshot))).
Proof.
  cbv zeta.
  assert (H : without FromPaint
                [LayoutShift [{| LayoutShiftEntry.hadRecentInput := false;
                                 LayoutShiftEntry.value := 1 # 10 |}];
                 LargestPaint [fcpAt 1200]])
    by (repeat constructor; discriminate).
  split; [exact H|].
  exact (proj2 (proj2 (callbacks_write_their_own_field _ (start Score.exampleSnapshot)))
           FromPaint H).
Defined.

End FieldFacts.

(** ** What the observers emit *)

Section EmitFacts.
Import Monitor.

Lemma lastOf_app {A} (l1 l2 : list A) :
  lastOf (l1 ++ l2) = match lastOf l2 with Some x => Some x | None => lastOf l1 end.
Proof.
  unfold lastOf. induction l2 as [|x l2 IH] using rev_ind.
  - rewrite app_nil_r. reflexivity.
  - rewrite app_assoc, !List.map_app. simpl. rewrite !List.last_last. reflexivity.
Qed.

Lemma lcpObserver_lastOf (entries : list PerformanceEntry.t) (s : Monitor.t) :
  lcpObserver entries s
  = match lastOf entries with
    | Some e => updateMetrics (lcpUpdate (PerformanceEntry.startTime e)) s
    | None => s
    end.
Proof. reflexivity. Qed.

Lemma lastOf_nil_iff {A} (l : list A) : lastOf l = None <-> l = [].
Proof.
  split; [|intros ->; reflexivity].
  destruct l as [|x l] using rev_ind; [reflexivity|].
  unfold lastOf. rewrite List.map_app. simpl. rewrite List.last_last. discriminate.
Qed.

(** X3: the LCP observer emits one update per entry list that is not
    empty, with the start time of the last entry of the list, and nothing
    for an empty list.  Over a session the snapshot holds the start time
    of the last entry delivered (of all lists together), whether or not
    an earlier entry was larger. *)
Theorem lcp_reports_the_last_entry (batches : list (list PerformanceEntry.t))
    (s : Monitor.t) :
  (forall entries e,
      lcpObserver (entries ++ [e]) s
      = updateMetrics (lcpUpdate (PerformanceEntry.startTime e)) s)
  /\ lcpObserver [] s = s
  /\ length (updates (deliver lcpObserver batches s))
     = (length (updates s)
        + length (List.filter (fun b => negb (Nat.eqb (length b) 0)) batches))%nat
  /\ largestContentfulPaint (metrics (deliver lcpObserver batches s))
     = match lastOf (List.concat batches) with
       | Some e => Some (PerformanceEntry.startTime e)
       | None => largestContentfulPaint (metrics s)
       end.
Proof.
  split; [|split; [reflexivity|]].
  - intros entries e. rewrite lcpObserver_lastOf, lastOf_app. reflexivity.
  - unfold deliver. induction batches as [|b batches IH] using rev_ind.
    + simpl. split; [lia|reflexivity].
    + rewrite List.fold_left_app, List.filter_app, List.concat_app, length_app.
      simpl. rewrite app_nil_r, lastOf_app, lcpObserver_lastOf.
      destruct IH as [IHn IHv].
      destruct (lastOf b) as [e|] eqn:Eb.
      * destruct b as [|x b]; [discriminate|]. simpl.
        rewrite length_app, IHn. simpl. split; [lia|reflexivity].
      * apply lastOf_nil_iff in Eb. subst b. simpl. split; [lia|exact IHv].
Qed.

(** X4: after an entry list the [firstInputDelay] of the snapshot is the
    delay of the last entry of the list that passes the guard, and it is
    unchanged when no entry passes it. *)
Theorem fid_keeps_the_last_delay (entries : list FirstInputEntry.t) (s : Monitor.t) :
  firstInputDelay (metrics (fidObserver entries s))
  = match lastOf (List.filter bothNonZero entries) with
    | Some e => Some (delay e)
    | None => firstInputDelay (metrics s)
    end.
Proof.
  unfold fidObserver. induction entries as [|e entries IH] using rev_ind.
  - reflexivity.
  - rewrite List.fold_left_app, List.filter_app, lastOf_app. simpl.
    rewrite fidEntry_cases. destruct (bothNonZero e); simpl; [reflexivity|exact IH].
Qed.

Lemma length_runningTotals (acc : Q) (vs : list Q) :
  length (runningTotals acc vs) = length vs.
Proof.
  revert acc. induction vs as [|v vs IH]; intros acc; simpl; [reflexivity|].
  rewrite IH. reflexivity.
Qed.

(** X5: the CLS observer emits one update per entry without recent
    input, and the values it emits are the running totals of the
    accumulator: each update carries the sum up to and including its
    entry, formed as the accumulator forms it, by additions of doubles
    in the order of arrival. *)
Theorem cls_emits_running_totals (entries : list LayoutShiftEntry.t) (s : Monitor.t) :
  updates (clsObserver entries s)
  = updates s
    ++ List.map clsUpdate
         (runningTotals (clsValue s)
            (List.map LayoutShiftEntry.value (List.filter counted entries)))
  /\ length (updates (clsObserver entries s))
     = (length (updates s) + length (List.filter counted entries))%nat.
Proof.
  assert (H : updates (clsObserver entries s)
              = updates s
                ++ List.map clsUpdate
                     (runningTotals (clsValue s)
                        (List.map LayoutShiftEntry.value (List.filter counted entries)))).
  { unfold clsObserver. revert s.
    induction entries as [|e entries IH]; intros s; simpl.
    - rewrite app_nil_r. reflexivity.
    - rewrite IH. unfold clsEntry, counted.
      destruct (LayoutShiftEntry.hadRecentInput e); simpl; [reflexivity|].
      rewrite <- app_assoc. reflexivity. }
  split; [exact H|].
  rewrite H, length_app, List.length_map, length_runningTotals, List.length_map.
  reflexivity.
Qed.

End EmitFacts.

(** ** More on the score *)

Section ScoreSteps.
Import Score.

Lemma deduction_values (r : row) (o : option Q) :
  deduction r o = 0 \/ deduction r o = needsImprovementPenalty r
  \/ deduction r o = poorPenalty r.
Proof.
  destruct o as [v|]; simpl; [|left; reflexivity]. unfold tier.
  destruct (Js.gt v (poorAbove r)); [right; right; reflexivity|].
  destruct (Js.gt v (needsImprovementAbove r)); [right; left; reflexivity|left; reflexivity].
Qed.

Lemma deduction_zero_iff (k : Metric) (o : option Q) :
  deduction (rowOf k) o = 0
  <-> forall v, o = Some v -> (v <= needsImprovementAbove (rowOf k))%Q.
Proof.
  pose proof (rows_wellFormed_each k) as (_ & Hle & _).
  destruct o as [v|]; simpl; [|split; [intros _ v H; discriminate|reflexivity]].
  unfold tier. split.
  - intros H w Hw. inversion Hw; subst w. apply gt_false.
    destruct (Js.gt v (poorAbove (rowOf k))); [destruct k; discriminate|].
    destruct (Js.gt v (needsImprovementAbove (rowOf k))); [destruct k; discriminate|].
    reflexivity.
  - intros H. specialize (H v eq_refl).
    assert (Hp : (v <= poorAbove (rowOf k))%Q) by (eapply Qle_trans; eassumption).
    apply gt_false in H. apply gt_false in Hp. rewrite Hp, H. reflexivity.
Qed.

(** X6: the score moves in steps of 5 between 30 and 100; it is 100
    exactly when no metric that is set is above its needs-improvement
    threshold; and it is a function of the four scored metrics alone:
    two snapshots that agree on them score the same, whatever their
    navigation and resource timing. *)
Theorem score_steps_of_five (m m' : PerformanceMetrics) :
  (exists n, 0 <= n <= 14 /\ calculatePerformanceScore m = 30 + 5 * n)
  /\ (calculatePerformanceScore m = 100
      <-> forall k v, getMetric k m = Some v -> (v <= needsImprovementAbove (rowOf k))%Q)
  /\ ((forall k, getMetric k m' = getMetric k m) ->
      calculatePerformanceScore m' = calculatePerformanceScore m).
Proof.
  split; [|split].
  - rewrite score_total. unfold totalDeduction.
    destruct (deduction_values fcpRow (firstContentfulPaint m)) as [E1|[E1|E1]];
      destruct (deduction_values lcpRow (largestContentfulPaint m)) as [E2|[E2|E2]];
      destruct (deduction_values fidRow (firstInputDelay m)) as [E3|[E3|E3]];
      destruct (deduction_values clsRow (cumulativeLayoutShift m)) as [E4|[E4|E4]];
      rewrite E1, E2, E3, E4; simpl;
      match goal with
      | |- exists n, _ /\ ?s = _ => exists ((s - 30) / 5); vm_compute; intuition congruence
      end.
  - rewrite score_total. unfold totalDeduction.
    pose proof (deduction_bounds _ (firstContentfulPaint m) (rows_wellFormed_each FCP)) as B1.
    pose proof (deduction_bounds _ (largestContentfulPaint m) (rows_wellFormed_each LCP)) as B2.
    pose proof (deduction_bounds _ (firstInputDelay m) (rows_wellFormed_each FID)) as B3.
    pose proof (deduction_bounds _ (cumulativeLayoutShift m) (rows_wellFormed_each CLS)) as B4.
    simpl rowOf in *. split.
    + intros H k v Hk.
      assert (Hz : deduction (rowOf k) (getMetric k m) = 0) by (destruct k; simpl; lia).
      exact (proj1 (deduction_zero_iff k _) Hz v Hk).
    + intros H.
      pose proof (proj2 (deduction_zero_iff FCP _) (H FCP)) as Z1.
      pose proof (proj2 (deduction_zero_iff LCP _) (H LCP)) as Z2.
      pose proof (proj2 (deduction_zero_iff FID _) (H FID)) as Z3.
      pose proof (proj2 (deduction_zero_iff CLS _) (H CLS)) as Z4.
      simpl in Z1, Z2, Z3, Z4. lia.
  - intros H. rewrite !score_total. unfold totalDeduction.
    pose proof (H FCP) as H1. pose proof (H LCP) as H2.
    pose proof (H FID) as H3. pose proof (H CLS) as H4.
    simpl in H1, H2, H3, H4. rewrite H1, H2, H3, H4. reflexivity.
Qed.

Lemma score_steps_of_five_witness :
  let m' := spread exampleSnapshot
              {| firstContentfulPaint := None; largestContentfulPaint := None;
                 firstInputDelay := None; cumulativeLayoutShift := None;
                 totalBlockingTime := None; timeToInteractive := None;
                 navigationTiming := None; resourceTiming := Some [] |} in
  (forall k, getMetric k m' = getMetric k exampleSnapshot)
  /\ calculatePerformanceScore m' = calculatePerformanceScore exampleSnapshot.
Proof.
  cbv zeta.
  match goal with
  | |- ?P /\ _ => assert (H : P) by (intros k; destruct k; reflexivity)
  end.
  split; [exact H|].
  exact (proj2 (proj2 (score_steps_of_five exampleSnapshot _)) H).
Defined.

End ScoreSteps.

(** ** Re-running the effect *)

Section RerunFacts.
Import Lifecycle.

Lemma observers_app (o : Observer) (h : Host) (l : list Observer) :
  observing h = l ->
  observers o h = length (List.filter (Observer_eqb o) l).
Proof. intros <-. reflexivity. Qed.

(** One run of the effect where every [observe] succeeds, over a host
    whose ref holds an FCP observer: the FCP observers are disconnected,
    the others stay, and four observers are added. *)
Lemma rerun_observing (ready : bool) (h : Host) :
  observerRef h = Some Fcp ->
  observing (rerun true (fun _ => true) ready h)
  = List.filter (fun o => negb (Observer_eqb o Fcp)) (observing h) ++ [Fcp; Lcp; Fid; Cls]
  /\ observerRef (rerun true (fun _ => true) ready h) = Some Fcp.
Proof.
  intros Href. unfold rerun, cleanup. rewrite Href.
  unfold mount, observeWebVitals. simpl.
  destruct ready; simpl; rewrite <- !app_assoc; split; reflexivity.
Qed.

Lemma count_after_filter (o : Observer) (l : list Observer) :
  length (List.filter (Observer_eqb o) (List.filter (fun o' => negb (Observer_eqb o' Fcp)) l))
  = match o with
    | Fcp => 0%nat
    | _ => length (List.filter (Observer_eqb o) l)
    end.
Proof.
  induction l as [|x l IH]; [destruct o; reflexivity|].
  destruct o, x; simpl in *; rewrite ?IH; reflexivity.
Qed.

(** X7: the cleanup disconnects the FCP observer only, so every re-run of
    the effect (a change of [onMetricsUpdate] or of a flag) leaves one
    more LCP, FID and CLS observer subscribed: after [n] re-runs in a
    browser where every [observe] succeeds, [n + 1] observers of each of
    these kinds are observing and still are after the final cleanup,
    while there is one FCP observer, and none after the cleanup. *)
Theorem observers_pile_up (n : nat) (ready : bool) :
  let h := reruns n true (fun _ => true) ready
             (mount true (fun _ => true) ready initial) in
  observers Fcp h = 1%nat
  /\ observers Lcp h = S n /\ observers Fid h = S n /\ observers Cls h = S n
  /\ observers Fcp (cleanup h) = 0%nat
  /\ observers Lcp (cleanup h) = S n
  /\ observers Fid (cleanup h) = S n
  /\ observers Cls (cleanup h) = S n.
Proof.
  cbv zeta.
  assert (H : let h := reruns n true (fun _ => true) ready
                         (mount true (fun _ => true) ready initial) in
              observerRef h = Some Fcp
              /\ observers Fcp h = 1%nat /\ observers Lcp h = S n
              /\ observers Fid h = S n /\ observers Cls h = S n).
  { induction n as [|n IH]; cbv zeta.
    - destruct ready; repeat split.
    - cbv zeta in IH. simpl reruns.
      destruct IH as (Href & H1 & H2 & H3 & H4).
      destruct (rerun_observing ready _ Href) as [Hobs Href'].
      split; [exact Href'|].
      unfold observers in *. rewrite Hobs, !List.filter_app, !length_app, !count_after_filter.
      simpl. rewrite H2, H3, H4. repeat split; lia. }
  cbv zeta in H. destruct H as (Href & H1 & H2 & H3 & H4).
  repeat split; try assumption.
  all: unfold cleanup; rewrite Href; unfold observers, disconnect; simpl;
    rewrite count_after_filter; assumption || reflexivity.
Qed.

(** X8: when one of the four [observe] calls throws, the assignment to
    [observerRef] is skipped: the ref stays empty, the cleanup changes
    nothing, and an FCP observer that subscribed before the throw still
    fires after the cleanup. *)
Theorem throw_leaves_cleanup_empty (accepts : Observer -> bool) (ready : bool) :
  (exists o, accepts o = false) ->
  let h := mount true accepts ready initial in
  observerRef h = None
  /\ cleanup h = h
  /\ fires Fcp (cleanup h) = accepts Fcp
  /\ (length (observing h) < 4)%nat.
Proof.
  intros [o Ho]. cbv zeta. unfold mount, observeWebVitals. simpl.
  destruct (accepts Fcp) eqn:E1; [|destruct ready; repeat split; simpl; lia].
  destruct (accepts Lcp) eqn:E2; [|destruct ready; repeat split; simpl; lia].
  destruct (accepts Fid) eqn:E3; [|destruct ready; repeat split; simpl; lia].
  destruct (accepts Cls) eqn:E4; [|destruct ready; repeat split; simpl; lia].
  destruct o; congruence.
Qed.

Lemma throw_leaves_cleanup_empty_witness :
  let accepts o := match o with Cls => false | _ => true end in
  (exists o, accepts o = false)
  /\ fires Fcp (cleanup (mount true accepts false initial)) = true.
Proof.
  cbv zeta.
  match goal with
  | |- ?P /\ _ => assert (H : P) by (exists Cls; reflexivity)
  end.
  split; [exact H|].
  exact (proj1 (proj2 (proj2
    (throw_leaves_cleanup_empty (fun o => match o with Cls => false | _ => true end)
       false H)))).
Defined.

End RerunFacts.

(** ** Rapid updates of the debounced value *)

Section TypingFacts.
Import Debounce.
Context {T : Type}.

Lemma handler_waiting (debounceMs now : nat) (v : T) (h : Debounce.t T) :
  waiting debounceMs now v (debouncedState (elapse now h))
    (handler debounceMs now [Value v] h).
Proof. unfold waiting, handler. simpl. repeat split. eexists. reflexivity. Qed.

Lemma elapse_early (debounceMs now time : nat) (v d : T) (h : Debounce.t T) :
  waiting debounceMs now v d h -> (time < now + debounceMs)%nat -> elapse time h = h.
Proof.
  intros (_ & _ & c & Hc) Ht. unfold elapse. rewrite Hc. simpl.
  destruct (Nat.leb_spec (now + debounceMs) time); [lia|reflexivity].
Qed.

Lemma elapse_due (debounceMs now time : nat) (v d : T) (h : Debounce.t T) :
  waiting debounceMs now v d h -> (now + debounceMs <= time)%nat ->
  debouncedState (elapse time h) = v /\ state (elapse time h) = v.
Proof.
  intros (Hs & _ & c & Hc) Ht. unfold elapse. rewrite Hc. simpl.
  destruct (Nat.leb_spec (now + debounceMs) time); [|lia].
  split; [reflexivity|exact Hs].
Qed.

Lemma last_nonempty_default {A} (x : A) (l : list A) (d d' : A) :
  List.last (x :: l) d = List.last (x :: l) d'.
Proof.
  revert x. induction l as [|y l IH]; intros x; [reflexivity|].
  change (List.last (y :: l) d = List.last (y :: l) d'). apply IH.
Qed.

Lemma typing_waiting (debounceMs : nat) (keys : list (nat * T)) :
  forall now v d h,
    waiting debounceMs now v d h -> rapid debounceMs now keys ->
    waiting debounceMs (fst (List.last keys (now, v))) (snd (List.last keys (now, v))) d
      (typing debounceMs keys h).
Proof.
  unfold typing.
  induction keys as [|[t w] keys IH]; intros now v d h Hw Hr; [exact Hw|].
  simpl in Hr. destruct Hr as (Hle & Hlt & Hr).
  assert (Hstep : waiting debounceMs t w d (handler debounceMs t [Value w] h)).
  { pose proof (handler_waiting debounceMs t w h) as Hh.
    rewrite (elapse_early _ _ _ _ _ _ Hw Hlt) in Hh.
    destruct Hw as (_ & Hd & _). rewrite Hd in Hh. exact Hh. }
  specialize (IH t w d _ Hstep Hr).
  change (List.fold_left _ ((t, w) :: keys) h)
    with (List.fold_left
            (fun h key => handler debounceMs (fst key) [Value (snd key)] h) keys
            (handler debounceMs t [Value w] h)).
  destruct keys as [|k keys']; [exact IH|].
  change (List.last ((t, w) :: k :: keys') (now, v)) with (List.last (k :: keys') (now, v)).
  rewrite (last_nonempty_default k keys' (now, v) (t, w)).
  exact IH.
Qed.

(** X9: plain values passed in rapid succession, each less than
    [debounceMs] after the one before, coalesce: the immediate value
    follows every update, while the delayed value keeps its initial value
    through all of them and until [debounceMs] after the last one, when it
    takes the last value and no value in between was ever published. *)
Theorem rapid_updates_coalesce (debounceMs : nat) (initialState : T)
    (first : nat * T) (rest : list (nat * T)) :
  rapid debounceMs (fst first) rest ->
  let h := typing debounceMs (first :: rest) (useOptimizedState initialState) in
  let final := List.last rest first in
  state h = snd final
  /\ debouncedState h = initialState
  /\ (forall time, (time < fst final + debounceMs)%nat ->
        debouncedState (elapse time h) = initialState)
  /\ (forall time, (fst final + debounceMs <= time)%nat ->
        debouncedState (elapse time h) = snd final).
Proof.
  intros Hr. cbv zeta. destruct first as [t0 v0].
  pose proof (handler_waiting debounceMs t0 v0 (useOptimizedState initialState)) as H0.
  change (debouncedState (elapse t0 (useOptimizedState initialState)))
    with initialState in H0.
  pose proof (typing_waiting debounceMs rest t0 v0 initialState _ H0 Hr) as Hw.
  change (typing debounceMs rest (handler debounceMs t0 [Value v0] (useOptimizedState initialState)))
    with (typing debounceMs ((t0, v0) :: rest) (useOptimizedState initialState)) in Hw.
  simpl fst in *.
  split; [apply Hw|]. split; [apply Hw|]. split.
  - intros time Ht. rewrite (elapse_early _ _ _ _ _ _ Hw Ht). apply Hw.
  - intros time Ht. apply (elapse_due _ _ _ _ _ _ Hw Ht).
Qed.

End TypingFacts.

Lemma rapid_updates_coalesce_witness :
  Debounce.rapid 300 0 [(50%nat, "ab"); (100%nat, "abc")]
  /\ Debounce.debouncedState
       (Debounce.elapse 400
          (Debounce.typing 300 [(0%nat, "a"); (50%nat, "ab"); (100%nat, "abc")]
             (Debounce.useOptimizedState "")))
     = "abc".
Proof.
  assert (H : Debounce.rapid 300 0 [(50%nat, "ab"); (100%nat, "abc")])
    by (simpl; repeat split; lia).
  split; [exact H|].
  apply (proj2 (proj2 (proj2
    (rapid_updates_coalesce 300 "" (0%nat, "a") [(50%nat, "ab"); (100%nat, "abc")] H)))).
  simpl. lia.
Defined.

(** The functional update is sound when a handler makes a single call. *)
Lemma single_call_settles_witness :
  let h := Debounce.useOptimizedState 5%Z in
  Debounce.rendered h = Debounce.state h /\ (0 + 300 <= 300)%nat
  /\ Debounce.debouncedState
       (Debounce.elapse 300 (Debounce.handler 300 0 [Debounce.Updater Z.succ] h))
     = 6%Z.
Proof.
  cbv zeta.
  assert (H1 : Debounce.rendered (Debounce.useOptimizedState 5%Z)
               = Debounce.state (Debounce.useOptimizedState 5%Z)) by reflexivity.
  assert (H2 : (0 + 300 <= 300)%nat) by lia.
  split; [exact H1|]. split; [exact H2|].
  destruct (single_call_settles 300 0 (Debounce.Updater Z.succ)
              (Debounce.useOptimizedState 5%Z) 300 H1 H2) as [Hd Hs].
  rewrite Hd. exact Hs.
Defined.

(** ** Rounds of batched updates *)

Section RoundFacts.
Import Batch.
Context {V : Type}.

Lemma accumulate_lookup (calls : list (gmap string V)) (pending : gmap string V)
    (k : string) :
  accumulate calls pending !! k
  = match lastWrite k calls with
    | Some v => Some v
    | None => pending !! k
    end.
Proof.
  unfold accumulate. revert pending.
  induction calls as [|u calls IH]; intros pending; simpl; [reflexivity|].
  rewrite IH. destruct (lastWrite k calls); [reflexivity|].
  rewrite lookup_union. destruct (u !! k), (pending !! k); reflexivity.
Qed.

Lemma accumulate_from (calls : list (gmap string V)) (pending : gmap string V) :
  accumulate calls pending = accumulate calls ∅ ∪ pending.
Proof.
  apply map_eq. intros k.
  rewrite lookup_union, !accumulate_lookup, lookup_empty.
  destruct (lastWrite k calls), (pending !! k); reflexivity.
Qed.

(** X10: whatever the calls made before the tick, the tick runs one
    flush when there was a call and none otherwise, and leaves the
    accumulator empty, no update queued and no timer set.  When React
    computed the update at dispatch, the committed state has, for every
    field, the value of the last call that has the field, and the initial
    value of a field that no call has.  When React runs the updater as it
    renders, the committed state is the initial state: every call is
    lost. *)
Theorem batch_last_write_wins (calls : list (gmap string V))
    (initialState : gmap string V) (k : string) (eager : bool) :
  let h := tick eager (submit calls (useBatchedState initialState)) in
  state h !! k = (if eager
                  then match lastWrite k calls with
                       | Some v => Some v
                       | None => initialState !! k
                       end
                  else initialState !! k)
  /\ flushes h = match calls with [] => 0%nat | _ => 1%nat end
  /\ pendingUpdatesRef h = ∅
  /\ queue h = []
  /\ timers h = [].
Proof.
  cbv zeta.
  destruct (batch_round calls eager (useBatchedState initialState) eq_refl eq_refl eq_refl)
    as (Ht & Hp & Hq & Hs & Hf).
  split; [|split; [exact Hf|split; [exact Hp|split; [exact Hq|exact Ht]]]].
  rewrite Hs. destruct eager.
  - rewrite <- accumulate_from, accumulate_lookup. reflexivity.
  - simpl. rewrite (left_id_L ∅ (∪)). reflexivity.
Qed.

(** X11: rounds do not interfere.  After two rounds, each with its tick,
    the committed state is the initial state overwritten by the calls of
    the first round if React computed its update at dispatch, then by
    those of the second round on the same condition; a round whose
    updater ran late leaves no trace, also in later rounds.  When both
    were computed at dispatch, the state is the one a single round of all
    the calls commits. *)
Theorem batch_rounds_compose (calls1 calls2 : list (gmap string V))
    (initialState : gmap string V) (eager1 eager2 : bool) :
  state (tick eager2 (submit calls2
           (tick eager1 (submit calls1 (useBatchedState initialState)))))
  = (if eager2 then accumulate calls2 ∅ else ∅)
    ∪ ((if eager1 then accumulate calls1 ∅ else ∅) ∪ initialState)
  /\ state (tick true (submit calls2
              (tick true (submit calls1 (useBatchedState initialState)))))
     = state (tick true (submit (calls1 ++ calls2) (useBatchedState initialState))).
Proof.
  assert (Hrounds : forall e1 e2,
            state (tick e2 (submit calls2
                     (tick e1 (submit calls1 (useBatchedState initialState)))))
            = (if e2 then accumulate calls2 ∅ else ∅)
              ∪ ((if e1 then accumulate calls1 ∅ else ∅) ∪ initialState)).
  { intros e1 e2.
    destruct (batch_round calls1 e1 (useBatchedState initialState) eq_refl eq_refl eq_refl)
      as (Ht1 & Hp1 & Hq1 & Hs1 & _).
    destruct (batch_round calls2 e2 _ Ht1 Hp1 Hq1) as (_ & _ & _ & Hs2 & _).
    rewrite Hs2, Hs1. reflexivity. }
  split; [apply Hrounds|].
  rewrite Hrounds.
  destruct (batch_round (calls1 ++ calls2) true (useBatchedState initialState)
              eq_refl eq_refl eq_refl) as (_ & _ & _ & Hs & _).
  rewrite Hs. simpl.
  assert (E : accumulate (calls1 ++ calls2) (∅ : gmap string V)
              = accumulate calls2 ∅ ∪ accumulate calls1 ∅).
  { unfold accumulate at 1. rewrite List.fold_left_app.
    fold (accumulate calls1 (∅ : gmap string V)).
    fold (accumulate calls2 (accumulate calls1 ∅)).
    apply accumulate_from. }
  rewrite E. apply (assoc_L (∪)).
Qed.

(** X12: updates that are still pending when the component unmounts are
    never committed: the cleanup clears the timer, so the tick after it
    runs no flush and the state is the one before the calls. *)
Theorem unmount_drops_pending (calls : list (gmap string V))
    (initialState : gmap string V) (eager : bool) :
  let h := tick eager (unmount (submit calls (useBatchedState initialState))) in
  state h = initialState /\ flushes h = 0%nat /\ timers h = [].
Proof.
  cbv zeta.
  destruct (submit_spec calls _ (useBatchedState_oneTimer initialState))
    as (Hone & Hs & Hq & Hf & _).
  assert (Ht : timers (unmount (submit calls (useBatchedState initialState))) = []).
  { unfold unmount. simpl.
    destruct Hone as [Hnone|(handle & Href & Hh)].
    - rewrite Hnone. destruct (batchTimeoutRef _); reflexivity.
    - rewrite Href, Hh. simpl. rewrite Pos.eqb_refl. reflexivity. }
  unfold tick, fire, render. rewrite Ht. simpl. rewrite Hq. simpl.
  repeat split; assumption.
Qed.

End RoundFacts.

(** ** Dependency lists and the memo *)

Section MemoFacts.
Import Memo.

Lemma Object_is_eq (a b : Js.value) : Js.Object_is a b = true <-> a = b.
Proof.
  destruct a, b; simpl; split; intros H; try discriminate; try reflexivity.
  - apply Bool.eqb_prop in H. congruence.
  - inversion H. apply Bool.eqb_reflx.
  - apply Z.eqb_eq in H. congruence.
  - inversion H. apply Z.eqb_refl.
  - apply String.eqb_eq in H. congruence.
  - inversion H. apply String.eqb_refl.
  - apply Pos.eqb_eq in H. congruence.
  - inversion H. apply Pos.eqb_refl.
Qed.

Lemma everyFrom_eq (deps1 : list Js.value) :
  forall pre rest,
    length deps1 = length rest ->
    Js.everyFrom (fun dep index => Js.Object_is dep (Js.at_index (pre ++ rest) index))
      (length pre) deps1 = true
    <-> deps1 = rest.
Proof.
  induction deps1 as [|x deps1 IH]; intros pre rest Hlen.
  - destruct rest; [|discriminate]. simpl. split; reflexivity.
  - destruct rest as [|y rest]; [discriminate|]. simpl in Hlen.
    simpl Js.everyFrom. unfold Js.at_index at 1. rewrite List.nth_middle.
    rewrite andb_true_iff, Object_is_eq.
    specialize (IH (pre ++ [y]) rest ltac:(lia)).
    rewrite <- app_assoc in IH. simpl in IH.
    rewrite length_app in IH. simpl in IH. rewrite Nat.add_1_r in IH.
    rewrite IH. split; [intros [-> ->]; reflexivity|intros E; inversion E; split; reflexivity].
Qed.

Lemma depsEqual_eq (deps1 deps2 : list Js.value) :
  depsEqual deps1 deps2 = true <-> deps1 = deps2.
Proof.
  unfold depsEqual, Js.every.
  destruct (Nat.eqb_spec (length deps1) (length deps2)) as [Hlen|Hlen]; simpl.
  - exact (everyFrom_eq deps1 [] deps2 Hlen).
  - split; [discriminate|]. intros ->. contradiction.
Qed.

(** X13: [depsEqual] decides equality of dependency lists: it answers
    true exactly when the two lists have the same length and the same
    value (in the sense of [Object.is]) at every index; lists of
    different lengths are never equal, whatever they hold. *)
Theorem depsEqual_decides_equality (deps1 deps2 : list Js.value) :
  (depsEqual deps1 deps2 = true <-> deps1 = deps2)
  /\ depsEqual deps1 deps1 = true
  /\ depsEqual deps1 deps2 = depsEqual deps2 deps1
  /\ (length deps1 <> length deps2 -> depsEqual deps1 deps2 = false).
Proof.
  pose proof depsEqual_eq as Hiff.
  split; [apply Hiff|]. split; [apply Hiff; reflexivity|]. split.
  - destruct (depsEqual deps1 deps2) eqn:E1, (depsEqual deps2 deps1) eqn:E2;
      try reflexivity.
    + apply Hiff in E1. subst. rewrite (proj2 (Hiff deps2 deps2) eq_refl) in E2.
      discriminate.
    + apply Hiff in E2. subst. rewrite (proj2 (Hiff deps1 deps1) eq_refl) in E1.
      discriminate.
  - intros Hlen. unfold depsEqual.
    destruct (Nat.eqb_spec (length deps1) (length deps2)); [contradiction|reflexivity].
Qed.

Lemma depsEqual_decides_equality_witness :
  length [Js.Num 1; Js.Str "a"] <> length [Js.Num 1]
  /\ depsEqual [Js.Num 1; Js.Str "a"] [Js.Num 1] = false.
Proof.
  assert (H : length [Js.Num 1; Js.Str "a"] <> length [Js.Num 1]) by discriminate.
  split; [exact H|].
  exact (proj2 (proj2 (proj2
    (depsEqual_decides_equality [Js.Num 1; Js.Str "a"] [Js.Num 1]))) H).
Defined.

Context {T : Type}.

(** X14: after a render the memo holds the value it returned together
    with the dependencies of that render; a later render with the same
    dependencies returns that value and does not call its factory, even
    if the factory would now compute something else; a render whose
    dependencies differ from the cached ones calls the factory once and
    returns its result; and [isExpensive] has no effect. *)
Theorem memo_returns_value_of_last_change (factory : unit -> T)
    (deps : list Js.value) (isExpensive : bool) (h : Memo.t T) :
  let r := useOptimizedMemo factory deps isExpensive h in
  memoRef (snd r) = Some {| value := fst r; Memo.deps := deps |}
  /\ (forall factory' isExpensive',
        useOptimizedMemo factory' deps isExpensive' (snd r) = (fst r, snd r))
  /\ (forall cachedValue cachedDeps,
        memoRef h = Some {| value := cachedValue; Memo.deps := cachedDeps |} ->
        cachedDeps <> deps ->
        fst r = factory tt /\ factoryCalls (snd r) = S (factoryCalls h))
  /\ (memoRef h = None ->
        fst r = factory tt /\ factoryCalls (snd r) = S (factoryCalls h))
  /\ useOptimizedMemo factory deps (negb isExpensive) h = r.
Proof.
  cbv zeta.
  assert (Hinv : memoRef (snd (useOptimizedMemo factory deps isExpensive h))
                 = Some {| value := fst (useOptimizedMemo factory deps isExpensive h);
                           Memo.deps := deps |}).
  { unfold useOptimizedMemo. destruct (memoRef h) as [[v d]|] eqn:Eh; [|reflexivity].
    destruct (depsEqual d deps) eqn:Ed; simpl; [|reflexivity].
    apply depsEqual_eq in Ed. subst d. exact Eh. }
  split; [exact Hinv|]. split; [|split; [|split]].
  - intros factory' isExpensive'. unfold useOptimizedMemo at 1. rewrite Hinv.
    rewrite (proj2 (depsEqual_eq deps deps) eq_refl). reflexivity.
  - intros v d Eh Hne. unfold useOptimizedMemo. rewrite Eh.
    destruct (depsEqual d deps) eqn:Ed; simpl; [|split; reflexivity].
    apply depsEqual_eq in Ed. contradiction.
  - intros Eh. unfold useOptimizedMemo. rewrite Eh. split; reflexivity.
  - reflexivity.
Qed.

End MemoFacts.

Lemma memo_returns_value_of_last_change_witness :
  let h := snd (Memo.useOptimizedMemo (fun _ => 1%Z) [Js.Num 7] true Memo.initial) in
  Memo.memoRef h = Some {| Memo.value := 1%Z; Memo.deps := [Js.Num 7] |}
  /\ [Js.Num 7] <> [Js.Num 8]
  /\ fst (Memo.useOptimizedMemo (fun _ => 2%Z) [Js.Num 8] true h) = 2%Z.
Proof.
  cbv zeta.
  assert (H1 : Memo.memoRef
                 (snd (Memo.useOptimizedMemo (fun _ => 1%Z) [Js.Num 7] true Memo.initial))
               = Some {| Memo.value := 1%Z; Memo.deps := [Js.Num 7] |}) by reflexivity.
  assert (H2 : [Js.Num 7] <> [Js.Num 8]) by discriminate.
  split; [exact H1|]. split; [exact H2|].
  exact (proj1 (proj1 (proj2 (proj2
    (memo_returns_value_of_last_change (fun _ => 2%Z) [Js.Num 8] true _))) _ _ H1 H2)).
Defined.

(** ** Lazy loading *)

Section LazyLoadFacts.
Import LazyLoad.

Lemma deliver_from (batches : list (list IntersectionObserverEntry)) (h : LazyLoad.t) :
  isVisible h = hasLoaded h ->
  deliver batches h
  = if List.forallb nonEmpty batches
    then Some {| isVisible := isVisible h || List.existsb intersects batches;
                 hasLoaded := hasLoaded h || List.existsb intersects batches |}
    else None.
Proof.
  revert h. induction batches as [|b batches IH]; intros h Hinv; simpl.
  - rewrite !orb_false_r. destruct h; reflexivity.
  - destruct b as [|e b]; simpl; [reflexivity|].
    destruct (isIntersecting e) eqn:Ee; simpl.
    + destruct (hasLoaded h) eqn:Eh; simpl.
      * rewrite IH by congruence. rewrite Hinv, Eh. simpl. reflexivity.
      * rewrite IH by reflexivity. rewrite Hinv. simpl. reflexivity.
    + rewrite IH by exact Hinv. reflexivity.
Qed.

(** X15: the visibility of a lazily loaded element is a latch.  Over any
    sequence of entry lists, none of them empty, the element is visible
    exactly when the first entry of one of the lists was intersecting,
    [hasLoaded] is equal to [isVisible] throughout, and once visible the
    element stays visible whatever is delivered later.  An empty entry
    list makes the callback throw. *)
Theorem lazy_load_latches (batches later : list (list IntersectionObserverEntry)) :
  deliver batches useLazyLoad
  = (if List.forallb nonEmpty batches
     then Some {| isVisible := List.existsb intersects batches;
                  hasLoaded := List.existsb intersects batches |}
     else None)
  /\ (forall h, deliver batches useLazyLoad = Some h ->
        isVisible h = hasLoaded h
        /\ (isVisible h = true ->
            forall h', deliver later h = Some h' -> h' = h))
  /\ (forall h, callback [] h = None).
Proof.
  split; [exact (deliver_from batches useLazyLoad eq_refl)|]. split; [|reflexivity].
  intros h Hh. rewrite (deliver_from batches useLazyLoad eq_refl) in Hh.
  destruct (List.forallb nonEmpty batches); [|discriminate].
  inversion Hh; subst h; clear Hh. simpl. split; [reflexivity|].
  intros Hv h' Hh'. rewrite deliver_from in Hh' by reflexivity.
  destruct (List.forallb nonEmpty later); [|discriminate].
  inversion Hh'. simpl. rewrite Hv. reflexivity.
Qed.

Lemma lazy_load_latches_witness :
  let seen := {| isIntersecting := true |} in
  let gone := {| isIntersecting := false |} in
  deliver [[gone]; [seen]] useLazyLoad = Some {| isVisible := true; hasLoaded := true |}
  /\ deliver [[gone]; [gone]] {| isVisible := true; hasLoaded := true |}
     = Some {| isVisible := true; hasLoaded := true |}.
Proof.
  cbv zeta.
  assert (H : deliver [[{| isIntersecting := false |}]; [{| isIntersecting := true |}]]
                useLazyLoad = Some {| isVisible := true; hasLoaded := true |})
    by reflexivity.
  split; [exact H|].
  destruct (proj1 (proj2 (lazy_load_latches
              [[{| isIntersecting := false |}]; [{| isIntersecting := true |}]]
              [[{| isIntersecting := false |}]; [{| isIntersecting := false |}]])) _ H)
    as [_ Hl].
  specialize (Hl eq_refl).
  destruct (deliver [[{| isIntersecting := false |}]; [{| isIntersecting := false |}]]
              {| isVisible := true; hasLoaded := true |}) as [h'|] eqn:E.
  - rewrite (Hl h' eq_refl). reflexivity.
  - discriminate E.
Defined.

End LazyLoadFacts.

(** ** Image loading and fallback *)

Section ImageFacts.
Import Image.

Lemma errors_app (events : list event) (e : event) :
  errors (events ++ [e]) = (errors events + match e with Error => 1 | Load => 0 end)%nat
  /\ loads (events ++ [e]) = (loads events + match e with Load => 1 | Error => 0 end)%nat.
Proof.
  unfold errors, loads. rewrite !List.filter_app, !length_app.
  destruct e; split; reflexivity.
Qed.

(** X16: the fallback is tried exactly once.  Over any sequence of load
    and error reports for one source, the image shows the source until
    the first error and, when a fallback is set, not empty and different
    from the source, the fallback from then on: it never switches back
    and never switches again.  [onError] is called for every error but
    the one that switched to the fallback, and [onLoadComplete] for every
    load. *)
Theorem fallback_is_tried_once (p : props) (events : list event) :
  let h := run p events (mount p) in
  let switched := usable p && negb (Nat.eqb (errors events) 0) in
  currentSrc h = (if switched
                  then match fallbackSrc p with Some f => f | None => src p end
                  else src p)
  /\ errorCalls h = (errors events - if switched then 1 else 0)%nat
  /\ loadCompleteCalls h = loads events.
Proof.
  cbv zeta. unfold run.
  induction events as [|e events IH] using rev_ind.
  - simpl. rewrite andb_false_r. repeat split.
  - rewrite List.fold_left_app.
    destruct (errors_app events e) as [-> ->].
    destruct IH as (Hc & He & Hl).
    remember (List.fold_left (step p) events (mount p)) as h eqn:Eh. clear Eh.
    remember (errors events) as n eqn:En. clear En.
    remember (loads events) as l eqn:El. clear El.
    destruct e; simpl List.fold_left; unfold step.
    + unfold handleLoad. simpl. rewrite Nat.add_0_r.
      repeat split; [exact Hc|exact He|lia].
    + unfold handleError, usable in *.
      destruct (fallbackSrc p) as [f|]; simpl in *;
        [|repeat split; first [assumption|lia]].
      destruct (String.eqb f "") eqn:E0; simpl in *;
        [repeat split; first [assumption|lia]|].
      destruct (String.eqb (src p) f) eqn:Es; simpl in *.
      * rewrite Hc, Es. simpl. repeat split; first [assumption|lia].
      * destruct n as [|n]; simpl in *.
        { rewrite Hc, Es. simpl. repeat split; first [assumption|lia|reflexivity]. }
        { rewrite Hc, String.eqb_refl. simpl.
          replace (n + 1 =? 0)%nat with false by (symmetry; apply Nat.eqb_neq; lia).
          simpl. repeat split; first [assumption|lia|reflexivity]. }
Qed.


(** X17: with a fallback that is not empty, the error box is never
    rendered: after two errors in a row the image has failed for good
    ([hasError] is set, nothing is loading and [onError] was called), and
    the render still shows neither the error box nor the spinner. *)
Theorem error_box_hidden_with_fallback (p : props) (events : list event) :
  truthy (fallbackSrc p) = true ->
  let h := run p (events ++ [Error; Error]) (mount p) in
  (forall h0, errorShown p h0 = false)
  /\ hasError h = true /\ isLoading h = false
  /\ spinnerShown p h = false
  /\ (0 < errorCalls h)%nat.
Proof.
  intros Ht. cbv zeta. split.
  - intros h0. unfold errorShown. rewrite Ht. apply andb_false_r.
  - unfold run. rewrite List.fold_left_app.
    set (h := List.fold_left (step p) events (mount p)).
    simpl. unfold truthy in Ht. unfold spinnerShown.
    destruct (fallbackSrc p) as [f|] eqn:Ef; [|discriminate].
    unfold handleError at 1 2 3 4. rewrite Ef.
    unfold handleError. rewrite Ef. rewrite Ht. simpl.
    destruct (String.eqb (currentSrc h) f) eqn:Ec; simpl.
    + rewrite Ec. simpl. repeat split; lia.
    + rewrite String.eqb_refl. simpl. repeat split; lia.
Qed.

Lemma error_box_hidden_with_fallback_witness :
  let p := {| src := "/a.png"; fallbackSrc := Some "/b.png";
              showLoadingSpinner := true; enableLazyLoad := true |} in
  truthy (fallbackSrc p) = true
  /\ hasError (run p ([] ++ [Error; Error]) (mount p)) = true.
Proof.
  cbv zeta.
  match goal with
  | |- ?P /\ _ => assert (H : P) by reflexivity
  end.
  split; [exact H|].
  exact (proj1 (proj2 (error_box_hidden_with_fallback _ [] H))).
Defined.

End ImageFacts.

(** ** The markdown editor *)

Section EditorFacts.
Import Editor.

(** X18: the height of the Monaco editor is the content height clamped
    to the range from 100 to 1,000,000: it is always within the range, it
    is the content height itself when that is within the range, and it
    never decreases when the content grows. *)
Theorem updateHeight_clamps (contentHeight larger : Q) :
  (minHeight <= updateHeight contentHeight)%Q
  /\ (updateHeight contentHeight <= MAX_EDITOR_HEIGHT)%Q
  /\ ((minHeight <= contentHeight)%Q -> (contentHeight <= MAX_EDITOR_HEIGHT)%Q ->
      (updateHeight contentHeight == contentHeight)%Q)
  /\ ((contentHeight <= larger)%Q -> (updateHeight contentHeight <= updateHeight larger)%Q)
  /\ (updateHeight (updateHeight contentHeight) == updateHeight contentHeight)%Q.
Proof.
  assert (Hclamp : forall c,
             (minHeight <= updateHeight c)%Q /\ (updateHeight c <= MAX_EDITOR_HEIGHT)%Q
             /\ ((minHeight <= c)%Q -> (c <= MAX_EDITOR_HEIGHT)%Q -> (updateHeight c == c)%Q)).
  { intros c. unfold updateHeight.
    assert (Hb : (minHeight <= MAX_EDITOR_HEIGHT)%Q) by (unfold Qle; simpl; lia).
    destruct (Q.max_spec minHeight c) as [[H1 E1]|[H1 E1]];
      destruct (Q.min_spec MAX_EDITOR_HEIGHT (Qmax minHeight c)) as [[H2 E2]|[H2 E2]];
      rewrite E2 in *; rewrite ?E1 in *; repeat split; intros; lra. }
  destruct (Hclamp contentHeight) as (Hlo & Hhi & Hid).
  split; [exact Hlo|]. split; [exact Hhi|]. split; [exact Hid|]. split.
  - intros Hle. unfold updateHeight.
    apply Q.min_le_compat_l. apply Q.max_le_compat_l. exact Hle.
  - apply (Hclamp (updateHeight contentHeight)); assumption.
Qed.

Lemma updateHeight_clamps_witness :
  (minHeight <= 250)%Q /\ (250 <= MAX_EDITOR_HEIGHT)%Q
  /\ (updateHeight 250 == 250)%Q.
Proof.
  assert (H1 : (minHeight <= 250)%Q) by (unfold Qle; simpl; lia).
  assert (H2 : (250 <= MAX_EDITOR_HEIGHT)%Q) by (unfold Qle; simpl; lia).
  split; [exact H1|]. split; [exact H2|].
  exact (proj1 (proj2 (proj2 (updateHeight_clamps 250 250))) H1 H2).
Defined.

(** [split] returns one piece more than the text has line feeds. *)
Lemma split_length (text : string) : length (split text) = S (lineFeeds text).
Proof.
  induction text as [|c text IH]; [reflexivity|].
  simpl. destruct (Ascii.eqb c newline); simpl; [rewrite IH; reflexivity|].
  destruct (split text) as [|first others]; [discriminate|].
  simpl in *. exact IH.
Qed.

(** X19: which editor is rendered.  The simple editor is used exactly
    when the text has at most 100 lines (99 line feeds) and at most
    20,000 characters and Monaco was not asked for.  Monaco is rendered
    with the large-text warning exactly when the text is over one of the
    two limits and Monaco was not asked for, and without the warning
    exactly when it was asked for, however large the text. *)
Theorem editor_choice (text : string) (monaco : bool) :
  let large := (99 < lineFeeds text)%nat \/ (20000 < Z.of_nat (String.length text))%Z in
  (MarkdownEditor text monaco = Simple <-> ~ large /\ monaco = false)
  /\ (MarkdownEditor text monaco = Monaco true <-> large /\ monaco = false)
  /\ (MarkdownEditor text monaco = Monaco false <-> monaco = true).
Proof.
  cbv zeta. unfold MarkdownEditor, LARGE_TEXT_THRESHOLD, LARGE_TEXT_THRESHOLD_CHARS.
  rewrite split_length.
  destruct (Z.ltb_spec 100 (Z.of_nat (S (lineFeeds text)))) as [H1|H1];
    destruct (Z.ltb_spec 20000 (Z.of_nat (String.length text))) as [H2|H2];
    destruct monaco; simpl; repeat split;
    try discriminate; try reflexivity; try tauto; try lia;
    intros; try discriminate; try tauto; try lia;
    try (intuition (discriminate || lia)).
Qed.

End EditorFacts.

(** ** More on the large resources *)

Section LargeResourceFacts.
Import Monitor.

(** [slice(0, 10)] is the first ten elements. *)
Lemma slice_first_ten {A} (l : list A) : Js.slice l 0 10 = List.firstn 10 l.
Proof.
  unfold Js.slice, Js.relativeIndex. cbv zeta.
  change (0 <? 0)%Z with false. change (10 <? 0)%Z with false. cbv iota.
  rewrite (Z.min_l 0) by lia. change (List.skipn (Z.to_nat 0) l) with l.
  destruct (Z.le_gt_cases 10 (Z.of_nat (length l))) as [H|H].
  - rewrite Z.min_l by lia. reflexivity.
  - rewrite Z.min_r by lia.
    replace (Z.to_nat (Z.max (Z.of_nat (length l) - 0) 0)) with (length l) by lia.
    rewrite List.firstn_all, List.firstn_all2 by lia. reflexivity.
Qed.

Lemma sort_sorted_id (l : list ResourceTiming) :
  StronglySorted descending l -> sort l = l.
Proof.
  induction l as [|x l IH]; intros Hs; [reflexivity|].
  apply StronglySorted_inv in Hs as [Hl Hx]. simpl. rewrite (IH Hl).
  destruct l as [|y l']; [reflexivity|]. simpl.
  inversion Hx as [|? ? Hxy _]; subst. unfold descending in Hxy.
  unfold compareFn. destruct (Z.leb_spec (transferSize y - transferSize x) 0); [reflexivity|lia].
Qed.

Lemma filter_all {A} (f : A -> bool) (l : list A) :
  Forall (fun x => f x = true) l -> List.filter f l = l.
Proof.
  induction 1 as [|x l Hx _ IH]; [reflexivity|]. simpl. rewrite Hx, IH. reflexivity.
Qed.

Lemma largeResources_large (l : list ResourceTiming) :
  Forall (fun e => isLarge e = true) (largeResources l).
Proof.
  apply List.Forall_forall. intros e He. unfold largeResources in He.
  apply in_firstn in He. apply (Permutation_in _ (sort_perm _)) in He.
  apply List.filter_In in He. apply He.
Qed.

(** X23: collecting is idempotent: the retained resources, collected
    again, are retained as they are, in the same order. *)
Theorem largeResources_idempotent (resourceEntries : list ResourceTiming) :
  largeResources (largeResources resourceEntries) = largeResources resourceEntries.
Proof.
  unfold largeResources at 1. fold isLarge.
  rewrite (filter_all _ _ (largeResources_large resourceEntries)).
  rewrite sort_sorted_id by (unfold largeResources; apply firstn_sorted, sort_sorted).
  apply List.firstn_all2. unfold largeResources. rewrite List.length_firstn. lia.
Qed.

Lemma filter_perm {A} (f : A -> bool) (l l' : list A) :
  Permutation l l' -> Permutation (List.filter f l) (List.filter f l').
Proof.
  induction 1 as [|x l l' _ IH|x y l|l l' l'' _ IH1 _ IH2]; simpl.
  - constructor.
  - destruct (f x); [constructor|]; exact IH.
  - destruct (f x), (f y); try reflexivity. apply perm_swap.
  - etransitivity; eassumption.
Qed.

Lemma sorted_sizes (l : list ResourceTiming) :
  StronglySorted descending l ->
  StronglySorted (fun a b : Z => (b <= a)%Z) (List.map transferSize l).
Proof.
  induction 1 as [|x l _ IH Hx]; simpl; constructor; [exact IH|].
  apply List.Forall_forall. intros z Hz. apply List.in_map_iff in Hz as (e & <- & He).
  rewrite List.Forall_forall in Hx. exact (Hx e He).
Qed.

(** Two descending lists of integers with the same elements are equal. *)
Lemma descending_unique (l1 l2 : list Z) :
  StronglySorted (fun a b : Z => (b <= a)%Z) l1 ->
  StronglySorted (fun a b : Z => (b <= a)%Z) l2 ->
  Permutation l1 l2 -> l1 = l2.
Proof.
  revert l2. induction l1 as [|a l1 IH]; intros l2 H1 H2 Hp.
  - apply Permutation_nil in Hp. subst. reflexivity.
  - destruct l2 as [|b l2]; [apply Permutation_sym, Permutation_nil in Hp; discriminate|].
    apply StronglySorted_inv in H1 as [H1 Ha].
    apply StronglySorted_inv in H2 as [H2 Hb].
    rewrite List.Forall_forall in Ha, Hb.
    assert (Eab : a = b).
    { assert (Hba : (b <= a)%Z).
      { pose proof (Permutation_in b (Permutation_sym Hp) (or_introl eq_refl)) as [->|Hin];
          [lia|exact (Ha b Hin)]. }
      assert (Hab : (a <= b)%Z).
      { pose proof (Permutation_in a Hp (or_introl eq_refl)) as [->|Hin];
          [lia|exact (Hb a Hin)]. }
      lia. }
    subst b. f_equal. apply IH; try assumption.
    exact (Permutation_cons_inv Hp).
Qed.

(** X24: the retained sizes do not depend on the order in which the host
    lists the resources: two listings of the same resources retain the
    same sizes in the same order. *)
Theorem largeResources_order_independent (l l' : list ResourceTiming) :
  Permutation l l' ->
  List.map transferSize (largeResources l) = List.map transferSize (largeResources l').
Proof.
  intros Hp. unfold largeResources. fold isLarge. rewrite <- !List.firstn_map. f_equal.
  apply descending_unique.
  - apply sorted_sizes, sort_sorted.
  - apply sorted_sizes, sort_sorted.
  - apply Permutation_map.
    rewrite !sort_perm. apply filter_perm. exact Hp.
Qed.

Lemma largeResources_order_independent_witness :
  Permutation exampleResources (List.rev exampleResources)
  /\ List.map transferSize (largeResources exampleResources)
     = List.map transferSize (largeResources (List.rev exampleResources)).
Proof.
  assert (H : Permutation exampleResources (List.rev exampleResources))
    by apply Permutation_rev.
  split; [exact H|].
  exact (largeResources_order_independent _ _ H).
Defined.

End LargeResourceFacts.
